(** * TypingAnimation: the reveal driver, the cursor blinker and the render
      projection of [src/TypingAnimation.tsx] as a state machine.

    The component keeps four pieces of React state and registers two effects.
    A world collects what the effects and their timers can observe: the
    destructured props of the last render, the four state cells, the pending
    one-shot timeout with the values its callback closed over, the running
    interval, and two logs (every delay handed to [setTimeout], every call of
    [onComplete]).  One step of the machine is one event of the host: the
    timeout fires, the interval ticks, the parent re-renders with new props,
    or the component is unmounted.  A step runs the callback, the re-render
    and the effects whose dependency arrays changed as one unit.

    Numbers are integers ([Z]); a character of a string stands for one code
    unit; a callback is known by its reference only (a [nat]). *)

From Stdlib Require Import String Ascii List ZArith Bool Arith Lia.
Import ListNotations.
Local Open Scope string_scope.

(** ** Props *)

(** [interface TypingAnimationProps]: every field but [text] is optional. *)
Record TypingAnimationProps := {
  p_text : string;
  p_speed : option Z;
  p_delay : option Z;
  p_className : option string;
  p_onComplete : option nat;
  p_hideCursorWhenComplete : option bool
}.

(** The locals bound by the destructuring pattern of the component, after the
    defaults have been applied. *)
Record Locals := {
  text : string;
  speed : Z;
  delay : Z;
  className : string;
  onComplete : option nat;
  hideCursorWhenComplete : bool
}.

Definition orDefault {A : Type} (d : A) (o : option A) : A :=
  match o with Some a => a | None => d end.

Definition destructure (p : TypingAnimationProps) : Locals :=
  {| text := p_text p;
     speed := orDefault 100%Z (p_speed p);
     delay := orDefault 0%Z (p_delay p);
     className := orDefault "" (p_className p);
     onComplete := p_onComplete p;
     hideCursorWhenComplete := orDefault false (p_hideCursorWhenComplete p) |}.

(** ** Component state: the four [useState] cells *)

Record State := {
  displayedText : string;
  currentIndex : nat;
  showCursor : bool;
  isComplete : bool
}.

Definition initialState : State :=
  {| displayedText := ""; currentIndex := 0; showCursor := true;
     isComplete := false |}.

(** ** Timers *)

(** The pending [setTimeout] of the reveal effect: its delay argument and the
    values of [currentIndex], [text] and [onComplete] seen by the render that
    registered it. *)
Record Pending := {
  t_ms : Z;
  t_currentIndex : nat;
  t_text : string;
  t_onComplete : option nat
}.

Record World := {
  mounted : bool;
  locals : Locals;
  state : State;
  timer : option Pending;
  cursorTimer : option Z;
  scheduled : list Z;
  completions : list nat
}.

(** ** Dependency arrays *)

Definition option_eqb {A : Type} (eqb : A -> A -> bool) (x y : option A) : bool :=
  match x, y with
  | Some a, Some b => eqb a b
  | None, None => true
  | _, _ => false
  end.

(** [[currentIndex, text, speed, delay, onComplete]] *)
Definition revealDepsEqb (l1 : Locals) (s1 : State) (l2 : Locals) (s2 : State) : bool :=
  Nat.eqb (currentIndex s1) (currentIndex s2)
  && String.eqb (text l1) (text l2)
  && Z.eqb (speed l1) (speed l2)
  && Z.eqb (delay l1) (delay l2)
  && option_eqb Nat.eqb (onComplete l1) (onComplete l2).

(** [[hideCursorWhenComplete, isComplete]] *)
Definition cursorDepsEqb (l1 : Locals) (s1 : State) (l2 : Locals) (s2 : State) : bool :=
  Bool.eqb (hideCursorWhenComplete l1) (hideCursorWhenComplete l2)
  && Bool.eqb (isComplete s1) (isComplete s2).

(** ** State setters *)

Definition setDisplayedText (f : string -> string) (w : World) : World :=
  {| mounted := mounted w; locals := locals w;
     state := {| displayedText := f (displayedText (state w));
                 currentIndex := currentIndex (state w);
                 showCursor := showCursor (state w);
                 isComplete := isComplete (state w) |};
     timer := timer w; cursorTimer := cursorTimer w;
     scheduled := scheduled w; completions := completions w |}.

Definition setCurrentIndex (f : nat -> nat) (w : World) : World :=
  {| mounted := mounted w; locals := locals w;
     state := {| displayedText := displayedText (state w);
                 currentIndex := f (currentIndex (state w));
                 showCursor := showCursor (state w);
                 isComplete := isComplete (state w) |};
     timer := timer w; cursorTimer := cursorTimer w;
     scheduled := scheduled w; completions := completions w |}.

Definition setShowCursor (f : bool -> bool) (w : World) : World :=
  {| mounted := mounted w; locals := locals w;
     state := {| displayedText := displayedText (state w);
                 currentIndex := currentIndex (state w);
                 showCursor := f (showCursor (state w));
                 isComplete := isComplete (state w) |};
     timer := timer w; cursorTimer := cursorTimer w;
     scheduled := scheduled w; completions := completions w |}.

Definition setIsComplete (b : bool) (w : World) : World :=
  {| mounted := mounted w; locals := locals w;
     state := {| displayedText := displayedText (state w);
                 currentIndex := currentIndex (state w);
                 showCursor := showCursor (state w);
                 isComplete := b |};
     timer := timer w; cursorTimer := cursorTimer w;
     scheduled := scheduled w; completions := completions w |}.

(** ** Host operations *)

(** [setTimeout(cb, ms)]: the callback is represented by what it closed over. *)
Definition setTimeout (t : Pending) (w : World) : World :=
  {| mounted := mounted w; locals := locals w; state := state w;
     timer := Some t; cursorTimer := cursorTimer w;
     scheduled := scheduled w ++ [t_ms t]; completions := completions w |}.

Definition clearTimeout (w : World) : World :=
  {| mounted := mounted w; locals := locals w; state := state w;
     timer := None; cursorTimer := cursorTimer w;
     scheduled := scheduled w; completions := completions w |}.

(** A timeout is one-shot: the host drops it as it fires. *)
Definition fired (w : World) : World := clearTimeout w.

Definition setInterval (ms : Z) (w : World) : World :=
  {| mounted := mounted w; locals := locals w; state := state w;
     timer := timer w; cursorTimer := Some ms;
     scheduled := scheduled w; completions := completions w |}.

Definition clearInterval (w : World) : World :=
  {| mounted := mounted w; locals := locals w; state := state w;
     timer := timer w; cursorTimer := None;
     scheduled := scheduled w; completions := completions w |}.

(** Calling the callback, when there is one: [if (onComplete) onComplete()]. *)
Definition callOnComplete (cb : option nat) (w : World) : World :=
  match cb with
  | Some f =>
      {| mounted := mounted w; locals := locals w; state := state w;
         timer := timer w; cursorTimer := cursorTimer w;
         scheduled := scheduled w; completions := completions w ++ [f] |}
  | None => w
  end.

Definition withLocals (l : Locals) (w : World) : World :=
  {| mounted := mounted w; locals := l; state := state w;
     timer := timer w; cursorTimer := cursorTimer w;
     scheduled := scheduled w; completions := completions w |}.

Definition unmounted (w : World) : World :=
  {| mounted := false; locals := locals w; state := state w;
     timer := timer w; cursorTimer := cursorTimer w;
     scheduled := scheduled w; completions := completions w |}.

(** ** The two effects *)

(** [text[currentIndex]] converted to a string by [+]: past the end the
    index expression is [undefined]. *)
Definition charAt (s : string) (i : nat) : string :=
  match String.get i s with
  | Some c => String c EmptyString
  | None => "undefined"
  end.

(** Body of the reveal effect, run by a render whose locals and state are
    those of [w]. *)
Definition revealEffect (w : World) : World :=
  setTimeout
    {| t_ms := if Nat.eqb (currentIndex (state w)) 0
               then delay (locals w) else speed (locals w);
       t_currentIndex := currentIndex (state w);
       t_text := text (locals w);
       t_onComplete := onComplete (locals w) |}
    w.

Definition revealCleanup (w : World) : World := clearTimeout w.

(** The callback given to [setTimeout]. *)
Definition timeoutCallback (t : Pending) (w : World) : World :=
  if Nat.ltb (t_currentIndex t) (String.length (t_text t)) then
    setCurrentIndex (fun prev => prev + 1)
      (setDisplayedText (fun prev => prev ++ charAt (t_text t) (t_currentIndex t)) w)
  else
    callOnComplete (t_onComplete t) (setIsComplete true w).

(** Body of the cursor effect.  The early return registers no cleanup and no
    interval; [setShowCursor(false)] touches no dependency of either effect. *)
Definition cursorEffect (w : World) : World :=
  if hideCursorWhenComplete (locals w) && isComplete (state w) then
    setShowCursor (fun _ => false) w
  else
    setInterval 500%Z w.

Definition cursorCleanup (w : World) : World := clearInterval w.

Definition intervalCallback (w : World) : World :=
  setShowCursor negb w.

(** ** Commit: cleanups of the effects whose dependencies changed since the
    previous render, then their bodies. *)
Definition commit (l0 : Locals) (s0 : State) (w : World) : World :=
  let r := negb (revealDepsEqb l0 s0 (locals w) (state w)) in
  let c := negb (cursorDepsEqb l0 s0 (locals w) (state w)) in
  let w1 := if r then revealCleanup w else w in
  let w2 := if c then cursorCleanup w1 else w1 in
  let w3 := if r then revealEffect w2 else w2 in
  if c then cursorEffect w3 else w3.

(** First render and first run of both effects. *)
Definition mount (p : TypingAnimationProps) : World :=
  cursorEffect
    (revealEffect
       {| mounted := true; locals := destructure p; state := initialState;
          timer := None; cursorTimer := None;
          scheduled := []; completions := [] |}).

(** ** Events and steps *)

Inductive Event :=
| TimeoutFires
| IntervalFires
| PropsChange (p : TypingAnimationProps)
| Unmount.

Definition step (w : World) (e : Event) : option World :=
  if negb (mounted w) then None else
  match e with
  | TimeoutFires =>
      match timer w with
      | Some t =>
          Some (commit (locals w) (state w) (timeoutCallback t (fired w)))
      | None => None
      end
  | IntervalFires =>
      match cursorTimer w with
      | Some _ => Some (commit (locals w) (state w) (intervalCallback w))
      | None => None
      end
  | PropsChange p =>
      Some (commit (locals w) (state w) (withLocals (destructure p) w))
  | Unmount =>
      Some (unmounted (cursorCleanup (revealCleanup w)))
  end.

Fixpoint run (w : World) (es : list Event) : option World :=
  match es with
  | [] => Some w
  | e :: es' =>
      match step w e with
      | Some w' => run w' es'
      | None => None
      end
  end.

(** A trace along which the configuration stays as it was at mount. *)
Definition keepsProps (e : Event) : bool :=
  match e with
  | PropsChange _ => false
  | _ => true
  end.

Definition fixedTrace (es : list Event) : bool := forallb keepsProps es.

(** ** Render projection *)

Record Caret := {
  glyph : string;
  opacity : Z;
  transition : string
}.

Record View := {
  v_className : string;
  v_text : string;
  v_caret : option Caret
}.

Definition render (l : Locals) (s : State) : View :=
  {| v_className := className l;
     v_text := displayedText s;
     v_caret :=
       if negb (hideCursorWhenComplete l) || negb (isComplete s) then
         Some {| glyph := "|";
                 opacity := if showCursor s then 1%Z else 0%Z;
                 transition := "opacity 0.1s ease-in-out" |}
       else None |}.

(** ** The invariant of a run with fixed configuration *)

(** The calls a completion makes: one when a callback is given, else none. *)
Definition callsOf (cb : option nat) : list nat :=
  match cb with Some f => [f] | None => [] end.

(** The timeout that is pending while the reveal has not completed. *)
Definition pendingFor (l : Locals) (s : State) : Pending :=
  {| t_ms := if Nat.eqb (currentIndex s) 0 then delay l else speed l;
     t_currentIndex := currentIndex s;
     t_text := text l;
     t_onComplete := onComplete l |}.

Record Inv (l : Locals) (w : World) : Prop := {
  inv_locals : locals w = l;
  inv_bound : currentIndex (state w) <= String.length (text l);
  inv_prefix :
    displayedText (state w) = substring 0 (currentIndex (state w)) (text l);
  inv_complete :
    isComplete (state w) = true ->
    currentIndex (state w) = String.length (text l);
  inv_calls :
    completions w =
    if isComplete (state w) then callsOf (onComplete l) else [];
  inv_scheduled :
    scheduled w = delay l :: repeat (speed l) (currentIndex (state w));
  inv_timer :
    timer w =
    if mounted w && negb (isComplete (state w))
    then Some (pendingFor l (state w)) else None;
  inv_cursorTimer :
    cursorTimer w =
    if mounted w && negb (hideCursorWhenComplete l && isComplete (state w))
    then Some 500%Z else None;
  inv_hidden :
    hideCursorWhenComplete l && isComplete (state w) = true ->
    showCursor (state w) = false
}.

(** The part of the invariant that only needs [text], [speed], [delay] and
    the [onComplete] reference to stay as they were at mount. *)
Definition revealPropsEqb (l1 l2 : Locals) : bool :=
  String.eqb (text l1) (text l2)
  && Z.eqb (speed l1) (speed l2)
  && Z.eqb (delay l1) (delay l2)
  && option_eqb Nat.eqb (onComplete l1) (onComplete l2).

Definition keepsReveal (l : Locals) (e : Event) : bool :=
  match e with
  | PropsChange p' => revealPropsEqb l (destructure p')
  | _ => true
  end.

Definition revealFixed (l : Locals) (es : list Event) : bool :=
  forallb (keepsReveal l) es.

Record RevealInv (l : Locals) (w : World) : Prop := {
  rinv_props : revealPropsEqb l (locals w) = true;
  rinv_bound : currentIndex (state w) <= String.length (text l);
  rinv_prefix :
    displayedText (state w) = substring 0 (currentIndex (state w)) (text l);
  rinv_complete :
    isComplete (state w) = true ->
    currentIndex (state w) = String.length (text l);
  rinv_calls :
    completions w =
    if isComplete (state w) then callsOf (onComplete l) else [];
  rinv_scheduled :
    scheduled w = delay l :: repeat (speed l) (currentIndex (state w));
  rinv_timer :
    timer w =
    if mounted w && negb (isComplete (state w))
    then Some (pendingFor l (state w)) else None
}.

(** What holds of every world an instance can be in, whatever the parent
    does with the props: the pending timeout is the one the current render
    would register, the displayed text has one character per index step, and
    the interval runs exactly when the caret is not suppressed. *)
Record Coherent (w : World) : Prop := {
  co_timer :
    forall t, timer w = Some t ->
      mounted w = true /\ t = pendingFor (locals w) (state w);
  co_length :
    String.length (displayedText (state w)) = currentIndex (state w);
  co_cursorTimer :
    cursorTimer w =
    if mounted w
       && negb (hideCursorWhenComplete (locals w) && isComplete (state w))
    then Some 500%Z else None;
  co_hidden :
    hideCursorWhenComplete (locals w) && isComplete (state w) = true ->
    showCursor (state w) = false
}.

(** ** Progress of the reveal: characters shown, plus one once completion
    has been flagged *)

Definition progress (w : World) : nat :=
  currentIndex (state w) + (if isComplete (state w) then 1 else 0).

Definition isWakeUp (e : Event) : bool :=
  match e with TimeoutFires => true | _ => false end.

Definition isUnmount (e : Event) : bool :=
  match e with Unmount => true | _ => false end.

Definition wakeUps (es : list Event) : nat := length (filter isWakeUp es).

(** The time a list of waits adds up to. *)
Definition totalWait (ds : list Z) : Z := fold_right Z.add 0%Z ds.

(** ** Configurations used in the examples *)

(** [<TypingAnimation text=... />] *)
Definition plain (s : string) : TypingAnimationProps :=
  {| p_text := s; p_speed := None; p_delay := None; p_className := None;
     p_onComplete := None; p_hideCursorWhenComplete := None |}.

(** [<TypingAnimation text=... speed=... delay=... onComplete=... />] *)
Definition timed (s : string) (sp dl : Z) (cb : nat) : TypingAnimationProps :=
  {| p_text := s; p_speed := Some sp; p_delay := Some dl; p_className := None;
     p_onComplete := Some cb; p_hideCursorWhenComplete := None |}.

(** As [timed], with [hideCursorWhenComplete={true}]. *)
Definition hiding (s : string) (sp dl : Z) (cb : nat) : TypingAnimationProps :=
  {| p_text := s; p_speed := Some sp; p_delay := Some dl; p_className := None;
     p_onComplete := Some cb; p_hideCursorWhenComplete := Some true |}.

(** The world a trace ends in (the mounted world when the trace cannot run). *)
Definition final (p : TypingAnimationProps) (es : list Event) : World :=
  match run (mount p) es with Some w => w | None => mount p end.

(** "Hi" with one character shown and one tick of the cursor. *)
Definition hi_one : World :=
  Eval vm_compute in final (plain "Hi") [TimeoutFires; IntervalFires].

(** "Hi" with both characters shown, the terminal wake-up still pending. *)
Definition hi_shown : World :=
  Eval vm_compute in final (plain "Hi") [TimeoutFires; TimeoutFires].

(** "Hi" completed. *)
Definition hi_done : World :=
  Eval vm_compute in
    final (plain "Hi") [TimeoutFires; TimeoutFires; TimeoutFires].

(** "Hi" completed and unmounted. *)
Definition hi_gone : World :=
  Eval vm_compute in
    final (plain "Hi")
      [TimeoutFires; IntervalFires; TimeoutFires; TimeoutFires; Unmount].

(** Scenario A with a delay of 3: "Hi", speed 10, callback 7, completed. *)
Definition hi_timed_done : World :=
  Eval vm_compute in
    final (timed "Hi" 10 3 7)
      [TimeoutFires; IntervalFires; TimeoutFires; TimeoutFires].

(** Scenario C: "AB", speed 100, caret hidden on completion; one character
    shown, then completed. *)
Definition ab_one : World :=
  Eval vm_compute in final (hiding "AB" 100 0 1) [TimeoutFires; IntervalFires].

Definition ab_done : World :=
  Eval vm_compute in
    final (hiding "AB" 100 0 1)
      [TimeoutFires; IntervalFires; TimeoutFires; TimeoutFires].

(** A negative delay and a negative speed, after the first wake-up. *)
Definition neg_one : World :=
  Eval vm_compute in final (timed "a" (-3) (-5) 0) [TimeoutFires].

(** Scenario D: "Hello" with three characters shown. *)
Definition hello_three : World :=
  Eval vm_compute in
    final (timed "Hello" 10 0 1) [TimeoutFires; TimeoutFires; TimeoutFires].

(** Scenario B: the empty text with a delay of 50, after its only wake-up. *)
Definition empty_done : World :=
  Eval vm_compute in final (timed "" 10 50 1) [TimeoutFires].

(** Scenario A completed, then re-rendered with the longer text "Hello":
    after the next wake-up. *)
Definition hi_then_hello : World :=
  Eval vm_compute in
    final (timed "Hi" 10 3 7)
      [TimeoutFires; IntervalFires; TimeoutFires; TimeoutFires;
       PropsChange (timed "Hello" 10 3 7); TimeoutFires].

(** Scenario C completed, then re-rendered without
    [hideCursorWhenComplete]. *)
Definition ab_shown_again : World :=
  Eval vm_compute in
    final (hiding "AB" 100 0 1)
      [TimeoutFires; IntervalFires; TimeoutFires; TimeoutFires;
       PropsChange (timed "AB" 100 0 1)].

(** Scenario A completed, then re-rendered with a new callback, 8. *)
Definition hi_new_callback : World :=
  Eval vm_compute in
    final (timed "Hi" 10 3 7)
      [TimeoutFires; IntervalFires; TimeoutFires; TimeoutFires;
       PropsChange (timed "Hi" 10 3 8)].

Definition hi_called_again : World :=
  Eval vm_compute in
    final (timed "Hi" 10 3 7)
      [TimeoutFires; IntervalFires; TimeoutFires; TimeoutFires;
       PropsChange (timed "Hi" 10 3 8); TimeoutFires].

(** Scenario D after the text shrank to "Hi" and the next wake-up. *)
Definition hello_cut : World :=
  Eval vm_compute in
    final (timed "Hello" 10 0 1)
      [TimeoutFires; TimeoutFires; TimeoutFires;
       PropsChange (timed "Hi" 10 0 2); TimeoutFires].


(** * Properties *)

(** ** Strings *)

Lemma substring_zero (s : string) : substring 0 0 s = "".
Proof. destruct s; reflexivity. Qed.

Lemma charAt_in_range (s : string) (k : nat) :
  k < String.length s -> exists c, charAt s k = String c "".
Proof.
  revert k; induction s as [|a s IH]; intros k Hk; simpl in Hk; [lia|].
  destruct k as [|k].
  - exists a; reflexivity.
  - destruct (IH k ltac:(lia)) as [c Hc]. exists c. exact Hc.
Qed.

Lemma substring_snoc (s : string) (k : nat) :
  k < String.length s ->
  substring 0 (S k) s = substring 0 k s ++ charAt s k.
Proof.
  revert k; induction s as [|a s IH]; intros k Hk; simpl in Hk; [lia|].
  destruct k as [|k].
  - simpl. rewrite substring_zero. reflexivity.
  - change (substring 0 (S (S k)) (String a s))
      with (String a (substring 0 (S k) s)).
    rewrite IH by lia. reflexivity.
Qed.

Lemma substring_all (s : string) : substring 0 (String.length s) s = s.
Proof.
  induction s as [|a s IH]; [reflexivity|].
  simpl. now rewrite IH.
Qed.

(** ** Dependency comparison under unchanged locals *)

Lemma option_eqb_nat_refl (o : option nat) : option_eqb Nat.eqb o o = true.
Proof. destruct o; simpl; [apply Nat.eqb_refl | reflexivity]. Qed.

Lemma revealDepsEqb_same (l : Locals) (s s' : State) :
  revealDepsEqb l s l s' = Nat.eqb (currentIndex s) (currentIndex s').
Proof.
  unfold revealDepsEqb.
  rewrite String.eqb_refl, !Z.eqb_refl, option_eqb_nat_refl.
  now rewrite !andb_true_r.
Qed.

Lemma cursorDepsEqb_same (l : Locals) (s s' : State) :
  cursorDepsEqb l s l s' = Bool.eqb (isComplete s) (isComplete s').
Proof.
  unfold cursorDepsEqb. now rewrite eqb_reflx.
Qed.

Lemma revealDepsEqb_true (l1 : Locals) (s1 : State) (l2 : Locals) (s2 : State) :
  revealDepsEqb l1 s1 l2 s2 = true <->
  currentIndex s1 = currentIndex s2 /\ text l1 = text l2 /\
  speed l1 = speed l2 /\ delay l1 = delay l2 /\ onComplete l1 = onComplete l2.
Proof.
  unfold revealDepsEqb. rewrite !andb_true_iff.
  rewrite Nat.eqb_eq, String.eqb_eq, !Z.eqb_eq.
  assert (Ho : option_eqb Nat.eqb (onComplete l1) (onComplete l2) = true
               <-> onComplete l1 = onComplete l2).
  { destruct (onComplete l1) as [a|], (onComplete l2) as [b|]; simpl;
      try (split; congruence).
    rewrite Nat.eqb_eq. split; congruence. }
  rewrite Ho. tauto.
Qed.

(** ** The invariant holds at mount and is kept by every step *)

Lemma mount_inv (p : TypingAnimationProps) : Inv (destructure p) (mount p).
Proof.
  unfold mount, cursorEffect; simpl. rewrite andb_false_r.
  constructor; simpl; try reflexivity; try lia; try discriminate.
  - now rewrite substring_zero.
  - now rewrite andb_false_r.
Qed.

Lemma repeat_snoc {A : Type} (a : A) (n : nat) :
  (repeat a n ++ [a])%list = repeat a (n + 1).
Proof.
  rewrite repeat_app. reflexivity.
Qed.

Lemma step_inv (l : Locals) (w w' : World) (e : Event) :
  Inv l w -> keepsProps e = true -> step w e = Some w' -> Inv l w'.
Proof.
  intros [Hl Hb Hp Hc Hcalls Hs Ht Hct Hh] Hk Hstep.
  destruct w as [m l0 [dt idx sc ic] tm ct sch cs]; simpl in *; subst l0.
  unfold step in Hstep; simpl in Hstep.
  destruct m; simpl in *; [|discriminate].
  destruct e; try discriminate.
  - (* the timeout fires *)
    destruct ic; simpl in *; subst tm; [discriminate|].
    injection Hstep as <-.
    unfold timeoutCallback, pendingFor, fired; simpl.
    destruct (Nat.ltb idx (String.length (text l))) eqn:E.
    + apply Nat.ltb_lt in E.
      unfold commit; simpl.
      rewrite revealDepsEqb_same, cursorDepsEqb_same; simpl.
      replace (Nat.eqb idx (idx + 1)) with false
        by (symmetry; apply Nat.eqb_neq; lia).
      simpl.
      constructor; simpl; try (intros; discriminate); try lia.
      * reflexivity.
      * replace (idx + 1) with (S idx) by lia.
        rewrite substring_snoc by lia. now rewrite Hp.
      * assumption.
      * subst sch.
        replace (Nat.eqb (idx + 1) 0) with false
          by (symmetry; apply Nat.eqb_neq; lia).
        simpl. f_equal. apply repeat_snoc.
      * reflexivity.
      * exact Hct.
    + apply Nat.ltb_ge in E.
      assert (idx = String.length (text l)) by lia.
      unfold commit.
      destruct (onComplete l) as [cb|] eqn:Ecb; simpl;
        rewrite revealDepsEqb_same, cursorDepsEqb_same; simpl;
        rewrite Nat.eqb_refl; simpl; unfold cursorEffect; simpl;
        rewrite andb_true_r;
        destruct (hideCursorWhenComplete l) eqn:Eh; simpl;
        constructor; simpl; rewrite ?Ecb, ?Eh;
        try reflexivity; try lia; try assumption; try discriminate;
        try (subst cs; reflexivity); auto.
  - (* the interval ticks *)
    destruct ct as [ms|]; [|discriminate].
    injection Hstep as <-.
    unfold commit, intervalCallback; simpl.
    rewrite revealDepsEqb_same, cursorDepsEqb_same; simpl.
    rewrite Nat.eqb_refl, eqb_reflx; simpl.
    constructor; simpl; try assumption; try reflexivity.
    intros Hhide. rewrite Hhide in Hct. discriminate.
  - (* unmount *)
    injection Hstep as <-.
    constructor; simpl; try assumption; try reflexivity.
Qed.

Lemma run_inv (l : Locals) (es : list Event) :
  forall w w', Inv l w -> fixedTrace es = true -> run w es = Some w' -> Inv l w'.
Proof.
  induction es as [|e es IH]; intros w w' Hinv Hfix Hrun; simpl in *.
  - injection Hrun as <-. exact Hinv.
  - apply andb_true_iff in Hfix as [He Hes].
    destruct (step w e) as [w1|] eqn:Hstep; [|discriminate].
    exact (IH w1 w' (step_inv l w w1 e Hinv He Hstep) Hes Hrun).
Qed.

Lemma reachable_inv (p : TypingAnimationProps) (es : list Event) (w : World) :
  fixedTrace es = true -> run (mount p) es = Some w -> Inv (destructure p) w.
Proof.
  intros Hfix Hrun. exact (run_inv _ es _ w (mount_inv p) Hfix Hrun).
Qed.

(** ** Traces *)

Lemma run_app (es1 es2 : list Event) :
  forall w,
    run w (es1 ++ es2)%list =
    match run w es1 with Some w1 => run w1 es2 | None => None end.
Proof.
  induction es1 as [|e es1 IH]; intros w; simpl; [reflexivity|].
  destruct (step w e); [apply IH | reflexivity].
Qed.

Lemma fixedTrace_app (es1 es2 : list Event) :
  fixedTrace (es1 ++ es2)%list = fixedTrace es1 && fixedTrace es2.
Proof. apply forallb_app. Qed.

Lemma fixedTrace_wakeups (k : nat) : fixedTrace (repeat TimeoutFires k) = true.
Proof. induction k; simpl; auto. Qed.

(** ** What a commit leaves alone *)

Lemma commit_keeps (l0 : Locals) (s0 : State) (w : World) :
  let w' := commit l0 s0 w in
  mounted w' = mounted w /\ locals w' = locals w /\
  displayedText (state w') = displayedText (state w) /\
  currentIndex (state w') = currentIndex (state w) /\
  isComplete (state w') = isComplete (state w) /\
  completions w' = completions w.
Proof.
  unfold commit, cursorEffect, revealEffect, revealCleanup, cursorCleanup.
  destruct (negb (revealDepsEqb l0 s0 (locals w) (state w)));
    destruct (negb (cursorDepsEqb l0 s0 (locals w) (state w))); simpl;
    try destruct (hideCursorWhenComplete (locals w) && isComplete (state w));
    simpl; repeat split; reflexivity.
Qed.

(** ** Progress along a run *)

Lemma step_facts (l : Locals) (w w' : World) (e : Event) :
  Inv l w -> keepsProps e = true -> step w e = Some w' ->
  mounted w = true /\
  mounted w' = negb (isUnmount e) /\
  progress w' = progress w + (if isWakeUp e then 1 else 0) /\
  currentIndex (state w) <= currentIndex (state w') /\
  (isComplete (state w) = true -> isComplete (state w') = true).
Proof.
  intros Hinv Hk Hstep.
  pose proof (inv_timer _ _ Hinv) as Ht.
  unfold step in Hstep.
  destruct (mounted w) eqn:Hm; simpl in Hstep; [|discriminate].
  split; [reflexivity|].
  destruct e; try discriminate; simpl.
  - destruct (timer w) as [t|] eqn:Etm; [|discriminate].
    destruct (isComplete (state w)) eqn:Eic; simpl in Ht; [discriminate|].
    injection Ht as ->. injection Hstep as <-.
    destruct (commit_keeps (locals w) (state w)
                (timeoutCallback (pendingFor l (state w)) (fired w)))
      as (Hm' & _ & _ & Hi & Hc & _).
    unfold progress. rewrite Hm', Hi, Hc. clear Hm' Hi Hc.
    unfold timeoutCallback, pendingFor; simpl.
    destruct (Nat.ltb (currentIndex (state w)) (String.length (text l))); simpl.
    + rewrite Eic. repeat split; try lia; auto.
    + destruct (onComplete l); simpl; rewrite Eic;
        repeat split; try lia; auto.
  - destruct (cursorTimer w); [|discriminate]. injection Hstep as <-.
    destruct (commit_keeps (locals w) (state w) (intervalCallback w))
      as (Hm' & _ & _ & Hi & Hc & _).
    unfold progress. rewrite Hm', Hi, Hc. simpl.
    repeat split; try lia; auto.
  - injection Hstep as <-. unfold progress; simpl.
    repeat split; try lia; auto.
Qed.

Lemma incomplete_below (l : Locals) (w : World) :
  Inv l w ->
  (isComplete (state w) = true <-> progress w = String.length (text l) + 1).
Proof.
  intros Hinv. pose proof (inv_bound _ _ Hinv) as Hb.
  pose proof (inv_complete _ _ Hinv) as Hc. unfold progress.
  destruct (isComplete (state w)); split; intros H;
    try discriminate; try reflexivity; try lia.
Qed.

Lemma wake_enabled (l : Locals) (w : World) :
  Inv l w -> mounted w = true -> isComplete (state w) = false ->
  exists w', step w TimeoutFires = Some w'.
Proof.
  intros Hinv Hm Hc. pose proof (inv_timer _ _ Hinv) as Ht.
  unfold step. rewrite Hm, Ht, Hm, Hc. simpl. eauto.
Qed.

Lemma run_progress (l : Locals) (es : list Event) :
  forall w w',
    Inv l w -> fixedTrace es = true -> run w es = Some w' ->
    progress w' = progress w + wakeUps es /\
    currentIndex (state w) <= currentIndex (state w') /\
    (isComplete (state w) = true -> isComplete (state w') = true).
Proof.
  induction es as [|e es IH]; intros w w' Hinv Hfix Hrun; simpl in *.
  - injection Hrun as <-. unfold wakeUps; simpl. repeat split; auto; lia.
  - apply andb_true_iff in Hfix as [He Hes].
    destruct (step w e) as [w1|] eqn:Hstep; [|discriminate].
    destruct (step_facts l w w1 e Hinv He Hstep) as (_ & _ & Hp & Hi & Hc).
    destruct (IH w1 w' (step_inv l w w1 e Hinv He Hstep) Hes Hrun)
      as (Hp' & Hi' & Hc').
    unfold wakeUps in *; simpl.
    destruct (isWakeUp e); simpl; repeat split; auto; lia.
Qed.

(** Letting the pending timeout fire again and again completes the reveal. *)
Lemma run_to_completion (l : Locals) (k : nat) :
  forall w,
    Inv l w -> mounted w = true ->
    progress w + k = String.length (text l) + 1 ->
    exists w',
      run w (repeat TimeoutFires k) = Some w' /\ mounted w' = true /\
      isComplete (state w') = true /\ Inv l w'.
Proof.
  induction k as [|k IH]; intros w Hinv Hm Hk; simpl.
  - exists w. split; [reflexivity|]. split; [exact Hm|].
    split; [|exact Hinv].
    apply (incomplete_below l w Hinv). lia.
  - assert (Hc : isComplete (state w) = false).
    { destruct (isComplete (state w)) eqn:E; [|reflexivity].
      apply (incomplete_below l w Hinv) in E. lia. }
    destruct (wake_enabled l w Hinv Hm Hc) as [w1 Hstep].
    rewrite Hstep.
    destruct (step_facts l w w1 TimeoutFires Hinv eq_refl Hstep)
      as (_ & Hm1 & Hp & _ & _).
    apply (IH w1 (step_inv l w w1 TimeoutFires Hinv eq_refl Hstep) Hm1).
    simpl in Hp. lia.
Qed.

(** ** Steps described for an arbitrary world *)

Lemma commit_same (w : World) (f : bool -> bool) :
  commit (locals w) (state w) (setShowCursor f w) = setShowCursor f w.
Proof.
  unfold commit; simpl.
  rewrite revealDepsEqb_same, cursorDepsEqb_same; simpl.
  now rewrite Nat.eqb_refl, eqb_reflx.
Qed.

Lemma tick_step (w : World) (ms : Z) :
  mounted w = true -> cursorTimer w = Some ms ->
  step w IntervalFires = Some (setShowCursor negb w).
Proof.
  intros Hm Hct. unfold step. rewrite Hm, Hct; simpl.
  unfold intervalCallback. now rewrite commit_same.
Qed.

Lemma ticks (k : nat) :
  forall (w : World) (ms : Z),
    mounted w = true -> cursorTimer w = Some ms ->
    exists w',
      run w (repeat IntervalFires k) = Some w' /\
      mounted w' = true /\ cursorTimer w' = Some ms /\
      showCursor (state w') = Nat.iter k negb (showCursor (state w)).
Proof.
  induction k as [|k IH]; intros w ms Hm Hct.
  - exists w. simpl. auto.
  - simpl run. rewrite (tick_step w ms Hm Hct).
    destruct (IH (setShowCursor negb w) ms Hm Hct) as (w' & Hr & Hm' & Hc' & Hs).
    exists w'. repeat split; auto.
    rewrite Hs. simpl showCursor. now rewrite Nat.iter_succ_r.
Qed.

(** A re-render whose reveal dependencies differ from those of the previous
    render clears the pending timeout and registers a new one. *)
Lemma props_change_reruns (w : World) (p' : TypingAnimationProps) :
  mounted w = true ->
  revealDepsEqb (locals w) (state w) (destructure p') (state w) = false ->
  exists w1,
    step w (PropsChange p') = Some w1 /\
    mounted w1 = true /\
    locals w1 = destructure p' /\
    timer w1 = Some (pendingFor (destructure p') (state w)) /\
    scheduled w1 =
      (scheduled w ++ [t_ms (pendingFor (destructure p') (state w))])%list /\
    displayedText (state w1) = displayedText (state w) /\
    currentIndex (state w1) = currentIndex (state w) /\
    isComplete (state w1) = isComplete (state w) /\
    completions w1 = completions w.
Proof.
  intros Hm Hd. unfold step. rewrite Hm; simpl.
  eexists; split; [reflexivity|].
  unfold commit; simpl. rewrite Hd; simpl.
  unfold cursorEffect, pendingFor.
  destruct (negb (cursorDepsEqb (locals w) (state w) (destructure p') (state w)));
    simpl;
    try destruct (orDefault false (p_hideCursorWhenComplete p')
                  && isComplete (state w));
    simpl; repeat split; auto.
Qed.


(** A wake-up whose closure holds an index at or past the end of its text
    takes the completion branch. *)
Lemma terminal_wake (w : World) (t : Pending) :
  mounted w = true -> timer w = Some t ->
  String.length (t_text t) <= t_currentIndex t ->
  exists w2,
    step w TimeoutFires = Some w2 /\
    mounted w2 = true /\
    isComplete (state w2) = true /\
    completions w2 = (completions w ++ callsOf (t_onComplete t))%list /\
    displayedText (state w2) = displayedText (state w) /\
    currentIndex (state w2) = currentIndex (state w) /\
    timer w2 = None /\ scheduled w2 = scheduled w.
Proof.
  intros Hm Ht Hlen. unfold step. rewrite Hm, Ht; simpl.
  eexists; split; [reflexivity|].
  unfold timeoutCallback.
  replace (Nat.ltb (t_currentIndex t) (String.length (t_text t))) with false
    by (symmetry; apply Nat.ltb_ge; exact Hlen).
  unfold commit.
  destruct (t_onComplete t) as [cb|]; simpl;
    rewrite revealDepsEqb_same; simpl; rewrite Nat.eqb_refl; simpl;
    unfold cursorEffect;
    destruct (negb (cursorDepsEqb (locals w) (state w) (locals w)
                      {| displayedText := displayedText (state w);
                         currentIndex := currentIndex (state w);
                         showCursor := showCursor (state w);
                         isComplete := true |}));
    simpl;
    try destruct (hideCursorWhenComplete (locals w)); simpl;
    repeat split; auto using app_nil_r.
Qed.

(** With no timeout pending and the configuration fixed, the reveal state
    never changes again. *)
Lemma idle_forever (es : list Event) :
  forall w w',
    timer w = None -> fixedTrace es = true -> run w es = Some w' ->
    timer w' = None /\
    displayedText (state w') = displayedText (state w) /\
    currentIndex (state w') = currentIndex (state w) /\
    isComplete (state w') = isComplete (state w) /\
    completions w' = completions w /\ scheduled w' = scheduled w.
Proof.
  induction es as [|e es IH]; intros w w' Ht Hfix Hrun; simpl in *.
  - injection Hrun as <-. auto 10.
  - apply andb_true_iff in Hfix as [He Hes].
    destruct (step w e) as [w1|] eqn:Hstep; [|discriminate].
    assert (H1 : timer w1 = None /\
                 displayedText (state w1) = displayedText (state w) /\
                 currentIndex (state w1) = currentIndex (state w) /\
                 isComplete (state w1) = isComplete (state w) /\
                 completions w1 = completions w /\ scheduled w1 = scheduled w).
    { unfold step in Hstep.
      destruct (mounted w) eqn:Hm; simpl in Hstep; [|discriminate].
      destruct e; try discriminate.
      - rewrite Ht in Hstep. discriminate.
      - destruct (cursorTimer w); [|discriminate].
        injection Hstep as <-. unfold intervalCallback.
        rewrite commit_same. simpl. auto 10.
      - injection Hstep as <-. simpl. auto 10. }
    destruct H1 as (Ht1 & Hd1 & Hi1 & Hc1 & Hcs1 & Hs1).
    destruct (IH w1 w' Ht1 Hes Hrun) as (Ht' & Hd' & Hi' & Hc' & Hcs' & Hs').
    repeat split; congruence.
Qed.

(** ** Runs along which only the reveal props are fixed *)

Lemma revealPropsEqb_true (l1 l2 : Locals) :
  revealPropsEqb l1 l2 = true <->
  text l1 = text l2 /\ speed l1 = speed l2 /\ delay l1 = delay l2 /\
  onComplete l1 = onComplete l2.
Proof.
  pose proof (revealDepsEqb_true l1 initialState l2 initialState) as H.
  unfold revealDepsEqb in H. simpl in H. unfold revealPropsEqb.
  rewrite H. tauto.
Qed.

Lemma revealPropsEqb_refl (l : Locals) : revealPropsEqb l l = true.
Proof. apply revealPropsEqb_true. auto. Qed.

Lemma revealDepsEqb_split (l1 : Locals) (s1 : State) (l2 : Locals) (s2 : State) :
  revealDepsEqb l1 s1 l2 s2 =
  Nat.eqb (currentIndex s1) (currentIndex s2) && revealPropsEqb l1 l2.
Proof.
  unfold revealDepsEqb, revealPropsEqb. now rewrite !andb_assoc.
Qed.

Lemma pendingFor_ext (l l' : Locals) (s : State) :
  revealPropsEqb l l' = true -> pendingFor l' s = pendingFor l s.
Proof.
  intros H. apply revealPropsEqb_true in H as (Ht & Hs & Hd & Ho).
  unfold pendingFor. now rewrite Ht, Hs, Hd, Ho.
Qed.

Lemma commit_reveal (l0 : Locals) (s0 : State) (w : World) :
  let w' := commit l0 s0 w in
  timer w' =
    (if revealDepsEqb l0 s0 (locals w) (state w) then timer w
     else Some (pendingFor (locals w) (state w))) /\
  scheduled w' =
    (if revealDepsEqb l0 s0 (locals w) (state w) then scheduled w
     else (scheduled w ++ [t_ms (pendingFor (locals w) (state w))])%list).
Proof.
  unfold commit, cursorEffect, revealEffect, revealCleanup, cursorCleanup.
  destruct (revealDepsEqb l0 s0 (locals w) (state w));
    destruct (negb (cursorDepsEqb l0 s0 (locals w) (state w))); simpl;
    try destruct (hideCursorWhenComplete (locals w) && isComplete (state w));
    simpl; split; reflexivity.
Qed.

Lemma inv_reveal (l : Locals) (w : World) : Inv l w -> RevealInv l w.
Proof.
  intros [Hl Hb Hp Hc Hcalls Hs Ht _ _].
  constructor; auto. rewrite Hl. apply revealPropsEqb_refl.
Qed.

Lemma fixed_revealFixed (l : Locals) (es : list Event) :
  fixedTrace es = true -> revealFixed l es = true.
Proof.
  unfold fixedTrace, revealFixed. rewrite !forallb_forall.
  intros H e He. specialize (H e He). destruct e; auto; discriminate.
Qed.

Lemma reveal_step (l : Locals) (w w' : World) (e : Event) :
  RevealInv l w -> keepsReveal l e = true -> step w e = Some w' ->
  RevealInv l w' /\
  progress w' = progress w + (if isWakeUp e then 1 else 0) /\
  currentIndex (state w) <= currentIndex (state w') /\
  (isComplete (state w) = true -> isComplete (state w') = true).
Proof.
  intros [Hr Hb Hp Hc Hcalls Hs Ht] He Hstep.
  unfold step in Hstep.
  destruct (mounted w) eqn:Hm; simpl in Hstep; [|discriminate].
  simpl in Ht.
  assert (Hrr : revealPropsEqb (locals w) (locals w) = true)
    by apply revealPropsEqb_refl.
  destruct e.
  - (* the timeout fires *)
    destruct (isComplete (state w)) eqn:Eic; simpl in Ht; rewrite Ht in Hstep;
      [discriminate|].
    injection Hstep as <-.
    set (wc := timeoutCallback (pendingFor l (state w)) (fired w)).
    destruct (commit_keeps (locals w) (state w) wc)
      as (Hm' & Hl' & Hd' & Hi' & Hic' & Hcs').
    destruct (commit_reveal (locals w) (state w) wc) as (Ht' & Hs').
    rewrite revealDepsEqb_split in Ht', Hs'.
    unfold progress. rewrite Hi', Hic', Eic.
    revert Hm' Hl' Hd' Hi' Hic' Hcs' Ht' Hs'.
    unfold wc, timeoutCallback, pendingFor; simpl.
    destruct (Nat.ltb (currentIndex (state w)) (String.length (text l))) eqn:E.
    + apply Nat.ltb_lt in E. simpl. rewrite Hrr, Eic.
      replace (Nat.eqb (currentIndex (state w)) (currentIndex (state w) + 1))
        with false by (symmetry; apply Nat.eqb_neq; lia).
      replace (Nat.eqb (currentIndex (state w) + 1) 0)
        with false by (symmetry; apply Nat.eqb_neq; lia).
      simpl. intros Hm' Hl' Hd' Hi' Hic' Hcs' Ht' Hs'.
      apply revealPropsEqb_true in Hr as (Hrt & Hrs & Hrd & Hro).
      split; [|split; [lia | split; [lia | discriminate]]].
      constructor.
      * rewrite Hl'. apply revealPropsEqb_true. auto.
      * lia.
      * rewrite Hd', Hi', Hp.
        replace (currentIndex (state w) + 1) with (S (currentIndex (state w)))
          by lia.
        now rewrite substring_snoc by lia.
      * rewrite Hic'. discriminate.
      * now rewrite Hic', Hcs'.
      * rewrite Hs', Hi', Hs, <- Hrs. simpl. f_equal. apply repeat_snoc.
      * unfold pendingFor. rewrite Ht', Hm', Hm, Hic', Hi'. simpl.
        replace (Nat.eqb (currentIndex (state w) + 1) 0)
          with false by (symmetry; apply Nat.eqb_neq; lia).
        now rewrite Hrt, Hrs, Hro.
    + apply Nat.ltb_ge in E.
      assert (Hidx : currentIndex (state w) = String.length (text l)) by lia.
      destruct (onComplete l) as [cb|] eqn:Ecb; simpl;
        rewrite Hrr, Nat.eqb_refl; simpl;
        intros Hm' Hl' Hd' Hi' Hic' Hcs' Ht' Hs';
        (split; [|split; [lia | split; [lia | auto]]]);
        constructor; rewrite ?Hl', ?Hd', ?Hi', ?Hic', ?Hcs', ?Ht', ?Hs', ?Hm',
                       ?Hm, ?Ecb; simpl;
        auto; try lia; try (now rewrite Hcalls).
  - (* the interval ticks *)
    destruct (cursorTimer w); [|discriminate]. injection Hstep as <-.
    unfold intervalCallback. rewrite commit_same.
    unfold progress; simpl.
    split; [|split; [lia | split; [lia | auto]]].
    constructor; simpl; auto. now rewrite Hm.
  - (* the parent re-renders with the same reveal props *)
    injection Hstep as <-. simpl in He.
    set (wl := withLocals (destructure p) w).
    destruct (commit_keeps (locals w) (state w) wl)
      as (Hm' & Hl' & Hd' & Hi' & Hic' & Hcs').
    destruct (commit_reveal (locals w) (state w) wl) as (Ht' & Hs').
    rewrite revealDepsEqb_split in Ht', Hs'. simpl in *.
    assert (Hsame : revealPropsEqb (locals w) (destructure p) = true).
    { apply revealPropsEqb_true in Hr as (? & ? & ? & ?).
      apply revealPropsEqb_true in He as (? & ? & ? & ?).
      apply revealPropsEqb_true. repeat split; congruence. }
    rewrite Hsame, Nat.eqb_refl in Ht', Hs'. simpl in Ht', Hs'.
    unfold progress. rewrite Hi', Hic'.
    split; [|split; [lia | split; [lia | auto]]].
    unfold pendingFor in Ht.
    constructor; unfold pendingFor;
      rewrite ?Hl', ?Hd', ?Hi', ?Hic', ?Hcs', ?Ht', ?Hs', ?Hm', ?Hm;
      simpl; auto.
  - (* unmount *)
    injection Hstep as <-. unfold progress; simpl.
    split; [|split; [lia | split; [lia | auto]]].
    constructor; simpl; auto.
Qed.

Lemma reveal_run (l : Locals) (es : list Event) :
  forall w w',
    RevealInv l w -> revealFixed l es = true -> run w es = Some w' ->
    RevealInv l w' /\
    progress w' = progress w + wakeUps es /\
    (isComplete (state w) = true -> isComplete (state w') = true).
Proof.
  induction es as [|e es IH]; intros w w' Hinv Hfix Hrun; simpl in *.
  - injection Hrun as <-. unfold wakeUps; simpl.
    split; [exact Hinv|]. split; [lia | auto].
  - apply andb_true_iff in Hfix as [He Hes].
    destruct (step w e) as [w1|] eqn:Hstep; [|discriminate].
    destruct (reveal_step l w w1 e Hinv He Hstep) as (Hinv1 & Hp & _ & Hc).
    destruct (IH w1 w' Hinv1 Hes Hrun) as (Hinv' & Hp' & Hc').
    split; [exact Hinv'|]. unfold wakeUps in *; simpl.
    destruct (isWakeUp e); simpl; split; auto; lia.
Qed.

Lemma reveal_complete_iff (l : Locals) (w : World) :
  RevealInv l w ->
  (isComplete (state w) = true <-> progress w = String.length (text l) + 1).
Proof.
  intros Hinv. pose proof (rinv_bound _ _ Hinv) as Hb.
  pose proof (rinv_complete _ _ Hinv) as Hc. unfold progress.
  destruct (isComplete (state w)); split; intros H;
    try discriminate; try reflexivity; try lia.
Qed.

(** A wake-up whose closure holds an index inside its text appends that
    character, advances [currentIndex] and registers the next timeout. *)
Lemma reveal_wake (w : World) (t : Pending) :
  mounted w = true -> timer w = Some t ->
  t_currentIndex t < String.length (t_text t) ->
  exists w2,
    step w TimeoutFires = Some w2 /\
    mounted w2 = true /\
    locals w2 = locals w /\
    displayedText (state w2) =
      displayedText (state w) ++ charAt (t_text t) (t_currentIndex t) /\
    currentIndex (state w2) = currentIndex (state w) + 1 /\
    isComplete (state w2) = isComplete (state w) /\
    completions w2 = completions w /\
    timer w2 =
      Some {| t_ms := speed (locals w);
              t_currentIndex := currentIndex (state w) + 1;
              t_text := text (locals w);
              t_onComplete := onComplete (locals w) |}.
Proof.
  intros Hm Ht Hlt. unfold step. rewrite Hm, Ht; simpl.
  eexists; split; [reflexivity|].
  set (wc := timeoutCallback t (fired w)).
  destruct (commit_keeps (locals w) (state w) wc)
    as (Hm' & Hl' & Hd' & Hi' & Hic' & Hcs').
  destruct (commit_reveal (locals w) (state w) wc) as (Ht' & _).
  rewrite Hm', Hl', Hd', Hi', Hic', Hcs', Ht'.
  clear Hm' Hl' Hd' Hi' Hic' Hcs' Ht'.
  unfold wc, timeoutCallback.
  apply Nat.ltb_lt in Hlt. rewrite Hlt. simpl.
  rewrite revealDepsEqb_same; simpl.
  replace (Nat.eqb (currentIndex (state w)) (currentIndex (state w) + 1))
    with false by (symmetry; apply Nat.eqb_neq; lia).
  unfold pendingFor; simpl.
  replace (Nat.eqb (currentIndex (state w) + 1) 0)
    with false by (symmetry; apply Nat.eqb_neq; lia).
  repeat split; auto.
Qed.

Lemma mount_progress (p : TypingAnimationProps) : progress (mount p) = 0.
Proof.
  unfold mount, cursorEffect, progress; simpl.
  now rewrite andb_false_r.
Qed.

Lemma mount_mounted (p : TypingAnimationProps) : mounted (mount p) = true.
Proof.
  unfold mount, cursorEffect; simpl.
  now rewrite andb_false_r.
Qed.

(** * Specification theorems *)

(** ** Completion flag and index *)

(** C1, as stated, fails: right after mounting the empty text, and after the
    second wake-up of "Hi", [currentIndex] equals [text.length] while
    [isComplete] is still false; the flag is only set by the wake-up that
    follows. *)
Lemma flag_lags_behind_index :
  let w0 := mount (plain "") in
  (mounted w0 = true /\
   ~ (isComplete (state w0) = true <->
      currentIndex (state w0) = String.length (text (locals w0)))) /\
  (run (mount (plain "Hi")) [TimeoutFires; TimeoutFires] = Some hi_shown /\
   mounted hi_shown = true /\
   currentIndex (state hi_shown) = String.length (text (locals hi_shown)) /\
   isComplete (state hi_shown) = false).
Proof.
  split.
  - split; [reflexivity|].
    intros [_ H]. specialize (H eq_refl). discriminate H.
  - repeat split.
Qed.

(** C1, amended: in every state a mounted instance reaches with its
    configuration fixed, [isComplete] is true if and only if [currentIndex]
    equals [text.length] and the terminal wake-up has fired, that is, no
    reveal timeout is pending; equivalently, if and only if [text.length + 1]
    wake-ups have happened.  In particular [isComplete] implies
    [currentIndex == text.length]. *)
Theorem complete_iff_terminal_wakeup_fired
    (p : TypingAnimationProps) (es : list Event) (w : World) :
  fixedTrace es = true -> run (mount p) es = Some w -> mounted w = true ->
  (isComplete (state w) = true <->
   currentIndex (state w) = String.length (p_text p) /\ timer w = None) /\
  (isComplete (state w) = true <-> wakeUps es = String.length (p_text p) + 1) /\
  (isComplete (state w) = true ->
   currentIndex (state w) = String.length (p_text p)).
Proof.
  intros Hfix Hrun Hm.
  pose proof (reachable_inv p es w Hfix Hrun) as Hinv.
  pose proof (inv_timer _ _ Hinv) as Ht.
  pose proof (inv_complete _ _ Hinv) as Hc.
  destruct (run_progress _ es _ _ (mount_inv p) Hfix Hrun) as (Hp & _ & _).
  pose proof (incomplete_below _ w Hinv) as Hb.
  rewrite mount_progress in Hp.
  change (text (destructure p)) with (p_text p) in *.
  rewrite Hm in Ht. simpl in Hp.
  split; [|split].
  - split.
    + intros Hic. split; [auto|]. rewrite Ht, Hic. reflexivity.
    + intros [_ Hnone]. rewrite Hnone in Ht.
      destruct (isComplete (state w)); [reflexivity | discriminate].
  - split; intros H.
    + apply Hb in H. lia.
    + apply Hb. lia.
  - exact Hc.
Qed.

Lemma complete_iff_terminal_wakeup_fired_witness :
  run (mount (plain "Hi")) [TimeoutFires; TimeoutFires; TimeoutFires]
    = Some hi_done /\
  (isComplete (state hi_done) = true <->
   currentIndex (state hi_done) = 2 /\ timer hi_done = None).
Proof.
  split; [reflexivity|].
  exact (proj1 (complete_iff_terminal_wakeup_fired (plain "Hi")
                  [TimeoutFires; TimeoutFires; TimeoutFires] hi_done
                  eq_refl eq_refl eq_refl)).
Defined.

(** ** The schedule of wake-ups *)

(** C2: with the configuration fixed, a pending wake-up waits [delay] when
    [currentIndex] is 0 and [speed] otherwise; the delays handed to the timer
    so far are [delay] followed by one [speed] per revealed character; a run
    has at most [text.length + 1] wake-ups, a completed one exactly that many
    with waits [delay, speed, ..., speed]; and letting the timeout fire
    [text.length + 1] times does complete the reveal. *)
Theorem reveal_schedule
    (p : TypingAnimationProps) (es : list Event) (w : World) :
  fixedTrace es = true -> run (mount p) es = Some w ->
  let l := destructure p in
  let n := String.length (text l) in
  (forall t, timer w = Some t ->
     t_ms t = if Nat.eqb (currentIndex (state w)) 0 then delay l else speed l) /\
  scheduled w = delay l :: repeat (speed l) (currentIndex (state w)) /\
  wakeUps es <= n + 1 /\
  (isComplete (state w) = true ->
     wakeUps es = n + 1 /\
     scheduled w = delay l :: repeat (speed l) n /\
     length (scheduled w) = n + 1 /\
     (mounted w = true -> step w TimeoutFires = None)) /\
  (exists w',
     run (mount p) (repeat TimeoutFires (n + 1)) = Some w' /\
     isComplete (state w') = true /\
     scheduled w' = delay l :: repeat (speed l) n).
Proof.
  intros Hfix Hrun l n.
  pose proof (reachable_inv p es w Hfix Hrun) as Hinv. fold l in Hinv.
  pose proof (inv_timer _ _ Hinv) as Ht.
  pose proof (inv_scheduled _ _ Hinv) as Hs.
  pose proof (inv_bound _ _ Hinv) as Hb.
  pose proof (inv_complete _ _ Hinv) as Hc.
  destruct (run_progress _ es _ _ (mount_inv p) Hfix Hrun) as (Hp & _ & _).
  rewrite mount_progress in Hp. simpl in Hp.
  pose proof (incomplete_below _ w Hinv) as Hcb.
  assert (Hle : progress w <= n + 1).
  { unfold progress, n. destruct (isComplete (state w)); lia. }
  split; [|split; [|split; [|split]]].
  - intros t Et. rewrite Et in Ht.
    destruct (mounted w && negb (isComplete (state w))); [|discriminate].
    injection Ht as ->. reflexivity.
  - exact Hs.
  - lia.
  - intros Hic. pose proof (Hc Hic) as Hidx. fold n in Hidx.
    apply Hcb in Hic as Hpr. fold l n in Hpr.
    split; [lia|]. split; [now rewrite Hs, Hidx|].
    split; [rewrite Hs, Hidx; simpl; rewrite repeat_length; lia|].
    intros Hm. unfold step. rewrite Hm, Ht, Hm, Hic. reflexivity.
  - destruct (run_to_completion l (n + 1) (mount p) (mount_inv p)
                (mount_mounted p))
      as (w' & Hr & _ & Hic' & Hinv').
    { rewrite mount_progress. reflexivity. }
    exists w'. split; [exact Hr|]. split; [exact Hic'|].
    rewrite (inv_scheduled _ _ Hinv').
    now rewrite (inv_complete _ _ Hinv' Hic').
Qed.

Lemma reveal_schedule_witness :
  run (mount (timed "Hi" 10 3 7))
    [TimeoutFires; IntervalFires; TimeoutFires; TimeoutFires]
    = Some hi_timed_done /\
  scheduled hi_timed_done = [3; 10; 10]%Z.
Proof.
  split; [reflexivity|].
  exact (proj1 (proj2 (reveal_schedule (timed "Hi" 10 3 7)
                         [TimeoutFires; IntervalFires; TimeoutFires; TimeoutFires]
                         hi_timed_done eq_refl eq_refl))).
Defined.

(** ** Monotonicity *)

(** C9: with the configuration fixed, [currentIndex] never decreases from
    one reachable state to any later one (in particular across a single
    step), and it never exceeds [text.length]. *)
Theorem currentIndex_monotone_bounded
    (p : TypingAnimationProps) (es1 es2 : list Event) (w1 w2 : World) :
  fixedTrace es1 = true -> fixedTrace es2 = true ->
  run (mount p) es1 = Some w1 -> run w1 es2 = Some w2 ->
  currentIndex (state w1) <= currentIndex (state w2) /\
  currentIndex (state w1) <= String.length (p_text p) /\
  currentIndex (state w2) <= String.length (p_text p).
Proof.
  intros Hf1 Hf2 Hr1 Hr2.
  pose proof (reachable_inv p es1 w1 Hf1 Hr1) as Hinv1.
  pose proof (run_inv _ es2 w1 w2 Hinv1 Hf2 Hr2) as Hinv2.
  destruct (run_progress _ es2 w1 w2 Hinv1 Hf2 Hr2) as (_ & Hmono & _).
  split; [exact Hmono|]. split.
  - exact (inv_bound _ _ Hinv1).
  - exact (inv_bound _ _ Hinv2).
Qed.

Lemma currentIndex_monotone_bounded_witness :
  run (mount (plain "Hi")) [TimeoutFires; IntervalFires] = Some hi_one /\
  run hi_one [TimeoutFires; TimeoutFires; Unmount] = Some hi_gone /\
  currentIndex (state hi_one) <= currentIndex (state hi_gone) /\
  currentIndex (state hi_one) <= 2 /\ currentIndex (state hi_gone) <= 2.
Proof.
  split; [reflexivity|]. split; [reflexivity|].
  exact (currentIndex_monotone_bounded (plain "Hi")
           [TimeoutFires; IntervalFires] [TimeoutFires; TimeoutFires; Unmount]
           hi_one hi_gone eq_refl eq_refl eq_refl eq_refl).
Defined.

(** ** Completion is notified once *)

(** C3: when [text], [speed], [delay] and the [onComplete] reference never
    change after mount (other props may) and an [onComplete] callback is
    given, the callback has been called once if the terminal wake-up has
    happened and not at all before; the only step that calls it is the wake-up
    that finds [currentIndex == text.length]; that wake-up does come when the
    timeout is left to fire [text.length + 1] times; and nothing later in the
    instance's life calls it again. *)
Theorem onComplete_exactly_once (p : TypingAnimationProps) (cb : nat) :
  p_onComplete p = Some cb ->
  let l := destructure p in
  let n := String.length (p_text p) in
  (forall es w,
     revealFixed l es = true -> run (mount p) es = Some w ->
     completions w = (if isComplete (state w) then [cb] else []) /\
     length (completions w) <= 1 /\
     (completions w = [cb] <-> wakeUps es = n + 1)) /\
  (forall es w e w',
     revealFixed l es = true -> run (mount p) es = Some w ->
     keepsReveal l e = true -> step w e = Some w' ->
     completions w' <> completions w ->
     e = TimeoutFires /\ currentIndex (state w) = n /\
     completions w = [] /\ completions w' = [cb]) /\
  (exists w,
     run (mount p) (repeat TimeoutFires (n + 1)) = Some w /\
     completions w = [cb]) /\
  (forall es w es' w',
     revealFixed l es = true -> run (mount p) es = Some w ->
     completions w = [cb] ->
     revealFixed l es' = true -> run w es' = Some w' ->
     completions w' = [cb]).
Proof.
  intros Hcb l n.
  assert (Hcalls : forall w, RevealInv l w ->
            completions w = if isComplete (state w) then [cb] else []).
  { intros w Hinv. rewrite (rinv_calls _ _ Hinv). unfold l; simpl.
    now rewrite Hcb. }
  pose proof (inv_reveal _ _ (mount_inv p)) as Hinv0. fold l in Hinv0.
  split; [|split; [|split]].
  - intros es w Hfix Hrun.
    destruct (reveal_run l es _ _ Hinv0 Hfix Hrun) as (Hinv & Hp & _).
    rewrite mount_progress in Hp. simpl in Hp.
    pose proof (reveal_complete_iff _ w Hinv) as Hb.
    change (String.length (text l)) with n in Hb.
    rewrite (Hcalls w Hinv).
    destruct (isComplete (state w)); simpl.
    + split; [reflexivity|]. split; [lia|].
      split; intros _; [|reflexivity].
      destruct Hb as [Hb _]. specialize (Hb eq_refl). lia.
    + split; [reflexivity|]. split; [lia|].
      split; [discriminate|]. intros H.
      destruct Hb as [_ Hb]. rewrite Hp, H in Hb. now specialize (Hb eq_refl).
  - intros es w e w' Hfix Hrun He Hstep Hneq.
    destruct (reveal_run l es _ _ Hinv0 Hfix Hrun) as (Hinv & _ & _).
    destruct (reveal_step l w w' e Hinv He Hstep) as (Hinv' & Hp & Hi & Hc).
    pose proof (rinv_complete _ _ Hinv') as Hn.
    rewrite (Hcalls w Hinv), (Hcalls w' Hinv') in *.
    unfold progress in Hp.
    destruct (isComplete (state w)) eqn:E.
    + rewrite (Hc eq_refl) in Hneq. now contradiction Hneq.
    + destruct (isComplete (state w')) eqn:E'; [|now contradiction Hneq].
      specialize (Hn eq_refl). change (String.length (text l)) with n in Hn.
      destruct e; simpl in Hp; try lia.
      repeat split; lia.
  - destruct (run_to_completion l (n + 1) (mount p) (mount_inv p)
                (mount_mounted p))
      as (w & Hr & _ & Hic & Hinv).
    { rewrite mount_progress. reflexivity. }
    exists w. split; [exact Hr|].
    now rewrite (Hcalls w (inv_reveal _ _ Hinv)), Hic.
  - intros es w es' w' Hfix Hrun Hone Hfix' Hrun'.
    destruct (reveal_run l es _ _ Hinv0 Hfix Hrun) as (Hinv & _ & _).
    destruct (reveal_run l es' w w' Hinv Hfix' Hrun') as (Hinv' & _ & Hc).
    rewrite (Hcalls w Hinv) in Hone. rewrite (Hcalls w' Hinv').
    destruct (isComplete (state w)); [|discriminate].
    now rewrite (Hc eq_refl).
Qed.

Lemma onComplete_exactly_once_witness :
  run (mount (timed "Hi" 10 3 7))
    [TimeoutFires; IntervalFires; TimeoutFires; TimeoutFires]
    = Some hi_timed_done /\
  completions hi_timed_done = [7] /\
  length (completions hi_timed_done) <= 1.
Proof.
  split; [reflexivity|].
  pose proof (proj1 (onComplete_exactly_once (timed "Hi" 10 3 7) 7 eq_refl)
                [TimeoutFires; IntervalFires; TimeoutFires; TimeoutFires]
                hi_timed_done eq_refl eq_refl) as H.
  exact (conj (proj1 H) (proj1 (proj2 H))).
Defined.

(** ** Render projection *)

(** C4: in every state reached with the configuration fixed, the rendered
    container carries the caller's class, its text is the prefix
    [text[0:currentIndex]], and its caret is the glyph [|] with opacity 1
    when [showCursor] is true and 0 when false; the caret node is absent
    exactly when [hideCursorWhenComplete] and [isComplete] are both true. *)
Theorem render_projection
    (p : TypingAnimationProps) (es : list Event) (w : World) :
  fixedTrace es = true -> run (mount p) es = Some w ->
  let l := destructure p in
  let v := render (locals w) (state w) in
  v_className v = className l /\
  v_text v = substring 0 (currentIndex (state w)) (text l) /\
  v_caret v =
    (if hideCursorWhenComplete l && isComplete (state w) then None
     else Some {| glyph := "|";
                  opacity := if showCursor (state w) then 1%Z else 0%Z;
                  transition := "opacity 0.1s ease-in-out" |}) /\
  (v_caret v = None <->
   hideCursorWhenComplete l = true /\ isComplete (state w) = true).
Proof.
  intros Hfix Hrun l v.
  pose proof (reachable_inv p es w Hfix Hrun) as Hinv. fold l in Hinv.
  pose proof (inv_prefix _ _ Hinv) as Hp.
  unfold v, render. rewrite (inv_locals _ _ Hinv). cbn [v_className v_text v_caret].
  split; [reflexivity|]. split; [exact Hp|].
  destruct (hideCursorWhenComplete l), (isComplete (state w)); simpl;
    (split; [reflexivity|]); split; try discriminate; try tauto;
    intros [? ?]; discriminate.
Qed.

Lemma render_projection_witness :
  run (mount (hiding "AB" 100 0 1)) [TimeoutFires; IntervalFires] = Some ab_one /\
  v_text (render (locals ab_one) (state ab_one)) = "A" /\
  run (mount (hiding "AB" 100 0 1))
    [TimeoutFires; IntervalFires; TimeoutFires; TimeoutFires] = Some ab_done /\
  v_text (render (locals ab_done) (state ab_done)) = "AB" /\
  v_caret (render (locals ab_done) (state ab_done)) = None.
Proof.
  split; [reflexivity|].
  split; [exact (proj1 (proj2 (render_projection (hiding "AB" 100 0 1)
                   [TimeoutFires; IntervalFires] ab_one eq_refl eq_refl)))|].
  split; [reflexivity|].
  pose proof (render_projection (hiding "AB" 100 0 1)
                [TimeoutFires; IntervalFires; TimeoutFires; TimeoutFires]
                ab_done eq_refl eq_refl) as H.
  exact (conj (proj1 (proj2 H)) (proj1 (proj2 (proj2 H)))).
Defined.

(** ** The cursor blinker *)

(** C5: in every state of a mounted instance with fixed configuration, a
    running blinker has period 500 and each of its ticks, however many,
    toggles [showCursor] and leaves the blinker running; when
    [hideCursorWhenComplete] is false the blinker is running whether or not
    the reveal is complete; when it is true the blinker runs until completion,
    and once [isComplete] is true no interval is registered, no tick can
    happen and [showCursor] is false, from then on. *)
Theorem cursor_blinker
    (p : TypingAnimationProps) (es : list Event) (w : World) :
  fixedTrace es = true -> run (mount p) es = Some w -> mounted w = true ->
  let l := destructure p in
  (forall ms, cursorTimer w = Some ms ->
     ms = 500%Z /\
     forall k, exists wk,
       run w (repeat IntervalFires k) = Some wk /\
       cursorTimer wk = Some 500%Z /\
       showCursor (state wk) = Nat.iter k negb (showCursor (state w))) /\
  (hideCursorWhenComplete l = false -> cursorTimer w = Some 500%Z) /\
  (hideCursorWhenComplete l = true -> isComplete (state w) = false ->
     cursorTimer w = Some 500%Z) /\
  (hideCursorWhenComplete l = true -> isComplete (state w) = true ->
     cursorTimer w = None /\ showCursor (state w) = false /\
     step w IntervalFires = None /\
     forall es' w',
       fixedTrace es' = true -> run w es' = Some w' ->
       cursorTimer w' = None /\ showCursor (state w') = false).
Proof.
  intros Hfix Hrun Hm l.
  pose proof (reachable_inv p es w Hfix Hrun) as Hinv. fold l in Hinv.
  pose proof (inv_cursorTimer _ _ Hinv) as Hct. rewrite Hm in Hct.
  pose proof (inv_hidden _ _ Hinv) as Hh.
  split; [|split; [|split]].
  - intros ms Ems.
    assert (Hms : ms = 500%Z).
    { rewrite Ems in Hct.
      destruct (negb (hideCursorWhenComplete l && isComplete (state w)));
        simpl in Hct; congruence. }
    subst ms. split; [reflexivity|]. intros k.
    destruct (ticks k w 500%Z Hm Ems) as (wk & Hr & _ & Hc & Hs).
    exists wk. auto.
  - intros Hhide. rewrite Hhide in Hct. exact Hct.
  - intros Hhide Hic. rewrite Hhide, Hic in Hct. exact Hct.
  - intros Hhide Hic. rewrite Hhide, Hic in Hct, Hh. simpl in Hct.
    split; [exact Hct|]. split; [exact (Hh eq_refl)|].
    split; [unfold step; now rewrite Hm, Hct|].
    intros es' w' Hfix' Hrun'.
    pose proof (run_inv _ es' w w' Hinv Hfix' Hrun') as Hinv'.
    destruct (run_progress _ es' w w' Hinv Hfix' Hrun') as (_ & _ & Hc).
    specialize (Hc Hic).
    pose proof (inv_cursorTimer _ _ Hinv') as Hct'.
    pose proof (inv_hidden _ _ Hinv') as Hh'.
    rewrite Hhide, Hc in Hct', Hh'. simpl in Hct'.
    rewrite andb_false_r in Hct'. auto.
Qed.

Lemma cursor_blinker_witness :
  run (mount (hiding "AB" 100 0 1))
    [TimeoutFires; IntervalFires; TimeoutFires; TimeoutFires] = Some ab_done /\
  cursorTimer ab_done = None /\ showCursor (state ab_done) = false.
Proof.
  split; [reflexivity|].
  pose proof (proj2 (proj2 (proj2
                (cursor_blinker (hiding "AB" 100 0 1)
                   [TimeoutFires; IntervalFires; TimeoutFires; TimeoutFires]
                   ab_done eq_refl eq_refl eq_refl))) eq_refl eq_refl) as H.
  exact (conj (proj1 H) (proj1 (proj2 H))).
Defined.

(** ** Negative delays *)

(** C6, as stated, fails: with [delay = -5] and [speed = -3] the reveal
    effect hands -5 to the timer at mount and -3 after the first character;
    nothing clamps either value. *)
Lemma negative_delay_is_scheduled :
  scheduled (mount (timed "a" (-3) (-5) 0)) = [(-5)%Z] /\
  ~ Forall (fun ms => (0 <= ms)%Z) (scheduled (mount (timed "a" (-3) (-5) 0))) /\
  run (mount (timed "a" (-3) (-5) 0)) [TimeoutFires] = Some neg_one /\
  scheduled neg_one = [(-5)%Z; (-3)%Z].
Proof.
  split; [reflexivity|]. split; [|split; reflexivity].
  intros H. inversion H as [|x xs Hx _]. lia.
Qed.

(** C6, amended: the reveal driver hands [delay] (when [currentIndex] is 0)
    or [speed] (otherwise) to the timer exactly as given, whatever their sign
    and without clamping: the waits scheduled so far are [delay] followed by
    one [speed] per revealed character, and a pending timeout carries that
    same value.  So every scheduled wait is non-negative when [speed] and
    [delay] both are, a negative [delay] is scheduled as it is, and so is a
    negative [speed] once a character has been revealed. *)
Theorem delays_passed_as_given
    (p : TypingAnimationProps) (es : list Event) (w : World) :
  fixedTrace es = true -> run (mount p) es = Some w ->
  let l := destructure p in
  scheduled w = delay l :: repeat (speed l) (currentIndex (state w)) /\
  (forall t, timer w = Some t ->
     t_ms t = if Nat.eqb (currentIndex (state w)) 0 then delay l else speed l) /\
  ((0 <= delay l)%Z -> (0 <= speed l)%Z ->
   Forall (fun ms => (0 <= ms)%Z) (scheduled w)) /\
  ((delay l < 0)%Z -> In (delay l) (scheduled w)) /\
  ((speed l < 0)%Z -> 0 < currentIndex (state w) -> In (speed l) (scheduled w)).
Proof.
  intros Hfix Hrun l.
  pose proof (reachable_inv p es w Hfix Hrun) as Hinv. fold l in Hinv.
  pose proof (inv_timer _ _ Hinv) as Ht.
  rewrite (inv_scheduled _ _ Hinv).
  split; [reflexivity|]. split; [|split; [|split]].
  - intros t Et. rewrite Et in Ht.
    destruct (mounted w && negb (isComplete (state w))); [|discriminate].
    injection Ht as ->. reflexivity.
  - intros Hd Hs. constructor; [exact Hd|].
    apply Forall_forall. intros x Hx. apply repeat_spec in Hx. now subst x.
  - intros _. left. reflexivity.
  - intros _ Hpos. right.
    destruct (currentIndex (state w)) as [|k]; [lia|]. left. reflexivity.
Qed.

Lemma delays_passed_as_given_witness :
  run (mount (timed "a" (-3) (-5) 0)) [TimeoutFires] = Some neg_one /\
  scheduled neg_one = [(-5)%Z; (-3)%Z] /\
  In (-5)%Z (scheduled neg_one) /\
  run (mount (timed "Hi" 10 3 7))
    [TimeoutFires; IntervalFires; TimeoutFires; TimeoutFires]
    = Some hi_timed_done /\
  Forall (fun ms => (0 <= ms)%Z) (scheduled hi_timed_done).
Proof.
  pose proof (delays_passed_as_given (timed "a" (-3) (-5) 0) [TimeoutFires]
                neg_one eq_refl eq_refl) as Hneg.
  pose proof (delays_passed_as_given (timed "Hi" 10 3 7)
                [TimeoutFires; IntervalFires; TimeoutFires; TimeoutFires]
                hi_timed_done eq_refl eq_refl) as Hpos.
  split; [reflexivity|].
  split; [exact (proj1 Hneg)|].
  split; [apply (proj1 (proj2 (proj2 (proj2 Hneg)))); simpl; lia|].
  split; [reflexivity|].
  apply (proj1 (proj2 (proj2 Hpos))); simpl; lia.
Defined.

(** ** A text that shrinks below the revealed count *)

(** C7: if, in a state reached with fixed configuration, the props change
    to a text shorter than [currentIndex], the re-render keeps
    [currentIndex], replaces the pending timeout by one closed over the new
    text, and the next wake-up sets [isComplete] and calls the new
    [onComplete] (when there is one); [displayedText] is what it was before
    the change, at that wake-up and for as long as the new props stay. *)
Theorem shorter_text_completes_at_once
    (p : TypingAnimationProps) (es : list Event) (w : World)
    (p' : TypingAnimationProps) :
  fixedTrace es = true -> run (mount p) es = Some w -> mounted w = true ->
  String.length (p_text p') < currentIndex (state w) ->
  exists w1 w2,
    step w (PropsChange p') = Some w1 /\
    currentIndex (state w1) = currentIndex (state w) /\
    timer w1 = Some (pendingFor (destructure p') (state w)) /\
    step w1 TimeoutFires = Some w2 /\
    isComplete (state w2) = true /\
    completions w2 = (completions w ++ callsOf (p_onComplete p'))%list /\
    displayedText (state w2) = substring 0 (currentIndex (state w)) (p_text p) /\
    currentIndex (state w2) = currentIndex (state w) /\
    forall es' w3,
      fixedTrace es' = true -> run w2 es' = Some w3 ->
      displayedText (state w3) = substring 0 (currentIndex (state w)) (p_text p) /\
      completions w3 = completions w2.
Proof.
  intros Hfix Hrun Hm Hlen.
  pose proof (reachable_inv p es w Hfix Hrun) as Hinv.
  pose proof (inv_bound _ _ Hinv) as Hb.
  pose proof (inv_prefix _ _ Hinv) as Hp.
  pose proof (inv_locals _ _ Hinv) as Hl.
  assert (Hd : revealDepsEqb (locals w) (state w) (destructure p') (state w)
               = false).
  { destruct (revealDepsEqb (locals w) (state w) (destructure p') (state w))
      eqn:E; [|reflexivity].
    apply revealDepsEqb_true in E as (_ & Ht & _).
    rewrite Hl in Ht. simpl in Ht, Hb. rewrite Ht in Hb. lia. }
  destruct (props_change_reruns w p' Hm Hd)
    as (w1 & Hs1 & Hm1 & _ & Ht1 & _ & Hd1 & Hi1 & _ & Hc1).
  destruct (terminal_wake w1 _ Hm1 Ht1)
    as (w2 & Hs2 & _ & Hic2 & Hc2 & Hd2 & Hi2 & Ht2 & _).
  { simpl. lia. }
  exists w1, w2.
  split; [exact Hs1|]. split; [exact Hi1|]. split; [exact Ht1|].
  split; [exact Hs2|]. split; [exact Hic2|].
  split; [rewrite Hc2, Hc1; reflexivity|].
  split; [rewrite Hd2, Hd1; exact Hp|].
  split; [congruence|].
  intros es' w3 Hfix' Hrun'.
  destruct (idle_forever es' w2 w3 Ht2 Hfix' Hrun') as (_ & Hd3 & _ & _ & Hc3 & _).
  split; [rewrite Hd3, Hd2, Hd1; exact Hp | exact Hc3].
Qed.

Lemma shorter_text_completes_at_once_witness :
  run (mount (timed "Hello" 10 0 1)) [TimeoutFires; TimeoutFires; TimeoutFires]
    = Some hello_three /\
  exists w1 w2,
    step hello_three (PropsChange (timed "Hi" 10 0 2)) = Some w1 /\
    step w1 TimeoutFires = Some w2 /\
    isComplete (state w2) = true /\
    completions w2 = [2] /\
    displayedText (state w2) = "Hel".
Proof.
  split; [reflexivity|].
  destruct (shorter_text_completes_at_once (timed "Hello" 10 0 1)
              [TimeoutFires; TimeoutFires; TimeoutFires] hello_three
              (timed "Hi" 10 0 2) eq_refl eq_refl eq_refl
              (le_n 3))
    as (w1 & w2 & H1 & _ & _ & H2 & H3 & H4 & H5 & _).
  exists w1, w2. exact (conj H1 (conj H2 (conj H3 (conj H4 H5)))).
Defined.

(** ** The empty text *)

(** C8: for the empty text, mounting schedules one wake-up, after [delay];
    that wake-up finds 0 = 0, sets [isComplete], calls [onComplete] (when
    there is one) and schedules nothing; in every state of the instance's
    life [displayedText] is empty, [currentIndex] is 0 and the only wait ever
    scheduled is [delay]. *)
Theorem empty_text_completes_at_first_wakeup (p : TypingAnimationProps) :
  p_text p = "" ->
  let l := destructure p in
  timer (mount p) =
    Some {| t_ms := delay l; t_currentIndex := 0; t_text := "";
            t_onComplete := onComplete l |} /\
  scheduled (mount p) = [delay l] /\
  (exists w',
     step (mount p) TimeoutFires = Some w' /\
     isComplete (state w') = true /\
     completions w' = callsOf (onComplete l) /\
     displayedText (state w') = "" /\
     timer w' = None) /\
  (forall es w,
     fixedTrace es = true -> run (mount p) es = Some w ->
     displayedText (state w) = "" /\ currentIndex (state w) = 0 /\
     scheduled w = [delay l] /\ wakeUps es <= 1 /\
     (isComplete (state w) = true <-> wakeUps es = 1)).
Proof.
  intros Hempty l.
  assert (Ht : timer (mount p) =
               Some {| t_ms := delay l; t_currentIndex := 0; t_text := "";
                       t_onComplete := onComplete l |}).
  { unfold mount, cursorEffect; simpl. rewrite andb_false_r; simpl.
    now rewrite Hempty. }
  assert (Hs : scheduled (mount p) = [delay l]).
  { unfold mount, cursorEffect; simpl. now rewrite andb_false_r. }
  assert (Hc0 : completions (mount p) = []).
  { unfold mount, cursorEffect; simpl. now rewrite andb_false_r. }
  assert (Hd0 : displayedText (state (mount p)) = "").
  { unfold mount, cursorEffect; simpl. now rewrite andb_false_r. }
  split; [exact Ht|]. split; [exact Hs|]. split.
  - destruct (terminal_wake (mount p) _ (mount_mounted p) Ht (le_n 0))
      as (w' & Hstep & _ & Hic & Hc & Hd & _ & Htm & _).
    exists w'. split; [exact Hstep|]. split; [exact Hic|].
    split; [now rewrite Hc, Hc0|]. split; [now rewrite Hd, Hd0 | exact Htm].
  - intros es w Hfix Hrun.
    pose proof (reachable_inv p es w Hfix Hrun) as Hinv.
    pose proof (inv_bound _ _ Hinv) as Hb.
    pose proof (inv_prefix _ _ Hinv) as Hp.
    pose proof (inv_scheduled _ _ Hinv) as Hsch.
    pose proof (incomplete_below _ w Hinv) as Hcb.
    destruct (run_progress _ es _ _ (mount_inv p) Hfix Hrun) as (Hpr & _ & _).
    rewrite mount_progress in Hpr. simpl in Hpr, Hb, Hcb.
    rewrite Hempty in Hb, Hcb. simpl in Hb, Hcb.
    assert (Hi : currentIndex (state w) = 0) by lia.
    rewrite Hi in Hp, Hsch. unfold progress in Hpr, Hcb. rewrite Hi in Hpr, Hcb.
    rewrite substring_zero in Hp.
    split; [exact Hp|]. split; [exact Hi|]. split; [exact Hsch|].
    destruct (isComplete (state w)); simpl in *.
    + split; [lia|]. split; intros _; [lia | reflexivity].
    + split; [lia|]. split; [discriminate|]. intros H. lia.
Qed.

Lemma empty_text_completes_at_first_wakeup_witness :
  scheduled (mount (timed "" 10 50 1)) = [50%Z] /\
  run (mount (timed "" 10 50 1)) [TimeoutFires] = Some empty_done /\
  displayedText (state empty_done) = "" /\
  scheduled empty_done = [50%Z].
Proof.
  pose proof (empty_text_completes_at_first_wakeup (timed "" 10 50 1) eq_refl)
    as H.
  split; [exact (proj1 (proj2 H))|]. split; [reflexivity|].
  pose proof (proj2 (proj2 (proj2 H)) [TimeoutFires] empty_done eq_refl eq_refl)
    as H'.
  exact (conj (proj1 H') (proj1 (proj2 (proj2 H')))).
Defined.

(** ** Completion after a change of props *)




(** * Further properties of the component *)

(** ** Every reachable world is coherent *)

Lemma length_append (s1 s2 : string) :
  String.length (s1 ++ s2) = String.length s1 + String.length s2.
Proof.
  induction s1 as [|a s1 IH]; simpl; [reflexivity | now rewrite IH].
Qed.

Lemma commit_cursor (l0 : Locals) (s0 : State) (w : World) :
  let w' := commit l0 s0 w in
  cursorTimer w' =
    (if cursorDepsEqb l0 s0 (locals w) (state w) then cursorTimer w
     else if hideCursorWhenComplete (locals w) && isComplete (state w)
          then None else Some 500%Z) /\
  showCursor (state w') =
    (if cursorDepsEqb l0 s0 (locals w) (state w) then showCursor (state w)
     else if hideCursorWhenComplete (locals w) && isComplete (state w)
          then false else showCursor (state w)).
Proof.
  unfold commit, cursorEffect, revealEffect, revealCleanup, cursorCleanup.
  destruct (revealDepsEqb l0 s0 (locals w) (state w));
    destruct (cursorDepsEqb l0 s0 (locals w) (state w)); simpl;
    try destruct (hideCursorWhenComplete (locals w) && isComplete (state w));
    simpl; split; reflexivity.
Qed.

Lemma mount_coherent (p : TypingAnimationProps) : Coherent (mount p).
Proof.
  unfold mount, cursorEffect; simpl. rewrite andb_false_r.
  constructor; simpl.
  - intros t Ht. injection Ht as <-. split; reflexivity.
  - reflexivity.
  - now rewrite andb_false_r.
  - rewrite andb_false_r. discriminate.
Qed.

Lemma step_coherent (w w' : World) (e : Event) :
  Coherent w -> step w e = Some w' -> Coherent w'.
Proof.
  intros [Ht Hl Hc Hh] Hstep.
  unfold step in Hstep.
  destruct (mounted w) eqn:Hm; simpl in Hstep; [|discriminate].
  simpl in Hc.
  destruct e.
  - (* the timeout fires *)
    destruct (timer w) as [t|] eqn:Et; [|discriminate].
    destruct (Ht t eq_refl) as [_ ->]. injection Hstep as <-.
    set (wc := timeoutCallback (pendingFor (locals w) (state w)) (fired w)).
    destruct (commit_keeps (locals w) (state w) wc)
      as (Hm' & Hl' & Hd' & Hi' & Hic' & _).
    destruct (commit_reveal (locals w) (state w) wc) as (Ht' & _).
    destruct (commit_cursor (locals w) (state w) wc) as (Hc' & Hs').
    revert Hm' Hl' Hd' Hi' Hic' Ht' Hc' Hs'.
    unfold wc, timeoutCallback, pendingFor; simpl.
    destruct (Nat.ltb (currentIndex (state w))
                (String.length (text (locals w)))) eqn:E.
    + apply Nat.ltb_lt in E. simpl.
      rewrite revealDepsEqb_same, cursorDepsEqb_same; simpl.
      replace (Nat.eqb (currentIndex (state w)) (currentIndex (state w) + 1))
        with false by (symmetry; apply Nat.eqb_neq; lia).
      rewrite eqb_reflx.
      intros Hm' Hl' Hd' Hi' Hic' Ht' Hc' Hs'.
      constructor.
      * intros t Etm. rewrite Ht' in Etm. injection Etm as <-.
        split; [congruence|].
        unfold pendingFor. now rewrite Hl', Hi'.
      * rewrite Hd', Hi', length_append, Hl.
        destruct (charAt_in_range _ _ E) as [c ->]. reflexivity.
      * rewrite Hc', Hm', Hm, Hl', Hic'. exact Hc.
      * rewrite Hl', Hic', Hs'. exact Hh.
    + destruct (onComplete (locals w)) as [cb|]; simpl;
        rewrite revealDepsEqb_same, cursorDepsEqb_same; simpl;
        rewrite Nat.eqb_refl;
        intros Hm' Hl' Hd' Hi' Hic' Ht' Hc' Hs';
        (constructor;
         [ intros t Etm; rewrite Ht' in Etm; discriminate
         | now rewrite Hd', Hi'
         | rewrite Hl', Hic', Hc', Hm', Hm; simpl;
           destruct (isComplete (state w)); simpl;
           [ exact Hc
           | destruct (hideCursorWhenComplete (locals w)); reflexivity ]
         | rewrite Hl', Hic', Hs';
           destruct (isComplete (state w)); simpl;
           [ exact Hh
           | destruct (hideCursorWhenComplete (locals w));
             [ reflexivity | discriminate ] ] ]).
  - (* the interval ticks *)
    destruct (cursorTimer w) as [ms|] eqn:Ect; [|discriminate].
    injection Hstep as <-.
    unfold intervalCallback. rewrite commit_same.
    constructor; simpl.
    + intros t Etm. destruct (Ht t Etm) as [_ ->]. split; [exact Hm | reflexivity].
    + exact Hl.
    + rewrite Hm, Ect. exact Hc.
    + intros Hhide. rewrite Hhide in Hc. discriminate.
  - (* the parent re-renders *)
    injection Hstep as <-.
    generalize (destructure p). intros l'.
    set (wl := withLocals l' w).
    destruct (commit_keeps (locals w) (state w) wl)
      as (Hm' & Hl' & Hd' & Hi' & Hic' & _).
    destruct (commit_reveal (locals w) (state w) wl) as (Ht' & _).
    destruct (commit_cursor (locals w) (state w) wl) as (Hc' & Hs').
    rewrite revealDepsEqb_split in Ht'. unfold cursorDepsEqb in Hc', Hs'.
    simpl in Hm', Hl', Hd', Hi', Hic', Ht', Hc', Hs'.
    rewrite Nat.eqb_refl in Ht'. rewrite eqb_reflx, andb_true_r in Hc', Hs'.
    simpl in Ht'.
    constructor.
    + intros t Etm. rewrite Ht' in Etm. split; [congruence|].
      unfold pendingFor. rewrite Hl', Hi'.
      destruct (revealPropsEqb (locals w) l') eqn:Er.
      * destruct (Ht t Etm) as [_ ->].
        exact (eq_sym (pendingFor_ext _ _ _ Er)).
      * now injection Etm as <-.
    + now rewrite Hd', Hi'.
    + rewrite Hc', Hm', Hm, Hl', Hic'. simpl.
      destruct (Bool.eqb (hideCursorWhenComplete (locals w))
                  (hideCursorWhenComplete l')) eqn:Eh.
      * apply eqb_prop in Eh. rewrite Eh in Hc. exact Hc.
      * destruct (hideCursorWhenComplete l'
                  && isComplete (state w)); reflexivity.
    + rewrite Hl', Hic', Hs'. intros Hhide.
      destruct (Bool.eqb (hideCursorWhenComplete (locals w))
                  (hideCursorWhenComplete l')) eqn:Eh.
      * apply eqb_prop in Eh. rewrite Eh in Hh. exact (Hh Hhide).
      * now rewrite Hhide.
  - (* unmount *)
    injection Hstep as <-.
    constructor; simpl; auto. discriminate.
Qed.

Lemma run_coherent (es : list Event) :
  forall w w', Coherent w -> run w es = Some w' -> Coherent w'.
Proof.
  induction es as [|e es IH]; intros w w' Hco Hrun; simpl in *.
  - injection Hrun as <-. exact Hco.
  - destruct (step w e) as [w1|] eqn:Hstep; [|discriminate].
    exact (IH w1 w' (step_coherent w w1 e Hco Hstep) Hrun).
Qed.

(** ** No stale closure *)

(** X2: whatever the sequence of wake-ups, ticks and re-renders since mount,
    a pending timeout belongs to a mounted instance and closes over the
    current [currentIndex], [text] and [onComplete]; its delay is the current
    [delay] when [currentIndex] is 0 and the current [speed] otherwise. *)
Theorem pending_timeout_is_current
    (p : TypingAnimationProps) (es : list Event) (w : World) (t : Pending) :
  run (mount p) es = Some w -> timer w = Some t ->
  mounted w = true /\
  t_currentIndex t = currentIndex (state w) /\
  t_text t = text (locals w) /\
  t_onComplete t = onComplete (locals w) /\
  t_ms t = (if Nat.eqb (currentIndex (state w)) 0
            then delay (locals w) else speed (locals w)).
Proof.
  intros Hrun Ht.
  pose proof (run_coherent es _ w (mount_coherent p) Hrun) as Hco.
  destruct (co_timer _ Hco t Ht) as [Hm ->].
  repeat split; auto.
Qed.

Lemma pending_timeout_is_current_witness :
  t_text {| t_ms := 10; t_currentIndex := 3; t_text := "Hello";
            t_onComplete := Some 7 |} = text (locals hi_then_hello) /\
  currentIndex (state hi_then_hello) = 3.
Proof.
  pose proof (pending_timeout_is_current (timed "Hi" 10 3 7)
                [TimeoutFires; IntervalFires; TimeoutFires; TimeoutFires;
                 PropsChange (timed "Hello" 10 3 7); TimeoutFires]
                hi_then_hello
                {| t_ms := 10; t_currentIndex := 3; t_text := "Hello";
                   t_onComplete := Some 7 |}
                eq_refl eq_refl) as H.
  exact (conj (proj1 (proj2 (proj2 H))) (eq_sym (proj1 (proj2 H)))).
Defined.

(** ** One character per index step *)

(** X3: whatever the sequence of events since mount, [displayedText] has
    exactly [currentIndex] characters: every reveal appends one character of
    the text, never the string of an index past its end. *)
Theorem displayedText_has_currentIndex_chars
    (p : TypingAnimationProps) (es : list Event) (w : World) :
  run (mount p) es = Some w ->
  String.length (displayedText (state w)) = currentIndex (state w).
Proof.
  intros Hrun.
  exact (co_length _ (run_coherent es _ w (mount_coherent p) Hrun)).
Qed.

Lemma displayedText_has_currentIndex_chars_witness :
  String.length (displayedText (state hi_then_hello)) = 3.
Proof.
  exact (displayedText_has_currentIndex_chars (timed "Hi" 10 3 7)
           [TimeoutFires; IntervalFires; TimeoutFires; TimeoutFires;
            PropsChange (timed "Hello" 10 3 7); TimeoutFires]
           hi_then_hello eq_refl).
Defined.

(** ** Nothing is ever taken back *)

Lemma commit_extends (l0 : Locals) (s0 : State) (w : World) :
  exists ds, scheduled (commit l0 s0 w) = (scheduled w ++ ds)%list.
Proof.
  destruct (commit_reveal l0 s0 w) as (_ & Hs).
  destruct (revealDepsEqb l0 s0 (locals w) (state w)).
  - exists []. now rewrite Hs, app_nil_r.
  - eexists. exact Hs.
Qed.

Lemma append_empty (s : string) : s ++ "" = s.
Proof. induction s as [|a s IH]; simpl; [reflexivity | now rewrite IH]. Qed.

Lemma append_assoc (s1 s2 s3 : string) : (s1 ++ s2) ++ s3 = s1 ++ (s2 ++ s3).
Proof. induction s1 as [|a s1 IH]; simpl; [reflexivity | now rewrite IH]. Qed.

Lemma step_extends (w w' : World) (e : Event) :
  step w e = Some w' ->
  currentIndex (state w) <= currentIndex (state w') /\
  (isComplete (state w) = true -> isComplete (state w') = true) /\
  (exists s, displayedText (state w') = displayedText (state w) ++ s) /\
  (exists cs, completions w' = (completions w ++ cs)%list) /\
  (exists ds, scheduled w' = (scheduled w ++ ds)%list).
Proof.
  intros Hstep. unfold step in Hstep.
  destruct (mounted w); simpl in Hstep; [|discriminate].
  destruct e.
  - destruct (timer w) as [t|]; [|discriminate]. injection Hstep as <-.
    set (wc := timeoutCallback t (fired w)).
    destruct (commit_keeps (locals w) (state w) wc)
      as (_ & _ & Hd & Hi & Hic & Hcs).
    destruct (commit_extends (locals w) (state w) wc) as [ds Hs].
    rewrite Hd, Hi, Hic, Hcs, Hs. clear Hd Hi Hic Hcs Hs.
    unfold wc, timeoutCallback.
    destruct (Nat.ltb (t_currentIndex t) (String.length (t_text t))); simpl.
    + split; [lia|]. split; [auto|]. split; [eauto|].
      split; [exists []; now rewrite app_nil_r | eauto].
    + destruct (t_onComplete t) as [cb|]; simpl;
        (split; [lia|]); (split; [auto|]);
        (split; [exists ""; now rewrite append_empty|]);
        (split; [|eauto]).
      * exists [cb]. reflexivity.
      * exists []. now rewrite app_nil_r.
  - destruct (cursorTimer w); [|discriminate]. injection Hstep as <-.
    unfold intervalCallback. rewrite commit_same. simpl.
    split; [lia|]. split; [auto|].
    split; [exists ""; now rewrite append_empty|].
    split; exists []; now rewrite app_nil_r.
  - injection Hstep as <-.
    set (wl := withLocals (destructure p) w).
    destruct (commit_keeps (locals w) (state w) wl)
      as (_ & _ & Hd & Hi & Hic & Hcs).
    destruct (commit_extends (locals w) (state w) wl) as [ds Hs].
    rewrite Hd, Hi, Hic, Hcs, Hs. simpl.
    split; [lia|]. split; [auto|].
    split; [exists ""; now rewrite append_empty|].
    split; [exists []; now rewrite app_nil_r | eauto].
  - injection Hstep as <-. simpl.
    split; [lia|]. split; [auto|].
    split; [exists ""; now rewrite append_empty|].
    split; exists []; now rewrite app_nil_r.
Qed.

(** X4: along any sequence of events from any world, re-renders with new
    props included, [currentIndex] never decreases, [isComplete] is never
    reset, and [displayedText], the call log and the schedule log only grow at
    their ends: a new [text] does not restart the reveal. *)
Theorem nothing_is_taken_back (es : list Event) :
  forall w w',
    run w es = Some w' ->
    currentIndex (state w) <= currentIndex (state w') /\
    (isComplete (state w) = true -> isComplete (state w') = true) /\
    (exists s, displayedText (state w') = displayedText (state w) ++ s) /\
    (exists cs, completions w' = (completions w ++ cs)%list) /\
    (exists ds, scheduled w' = (scheduled w ++ ds)%list).
Proof.
  induction es as [|e es IH]; intros w w' Hrun; simpl in Hrun.
  - injection Hrun as <-.
    split; [lia|]. split; [auto|].
    split; [exists ""; now rewrite append_empty|].
    split; exists []; now rewrite app_nil_r.
  - destruct (step w e) as [w1|] eqn:Hstep; [|discriminate].
    destruct (step_extends w w1 e Hstep)
      as (Hi & Hc & [s Hd] & [cs Hcs] & [ds Hs]).
    destruct (IH w1 w' Hrun) as (Hi' & Hc' & [s' Hd'] & [cs' Hcs'] & [ds' Hs']).
    split; [lia|]. split; [auto|].
    split; [exists (s ++ s'); now rewrite Hd', Hd, append_assoc|].
    split.
    + exists (cs ++ cs')%list. now rewrite Hcs', Hcs, app_assoc.
    + exists (ds ++ ds')%list. now rewrite Hs', Hs, app_assoc.
Qed.

Lemma nothing_is_taken_back_witness :
  run hello_three [PropsChange (timed "Hi" 10 0 2); TimeoutFires]
    = Some hello_cut /\
  currentIndex (state hello_three) <= currentIndex (state hello_cut) /\
  exists s, displayedText (state hello_cut) = "Hel" ++ s.
Proof.
  split; [reflexivity|].
  pose proof (nothing_is_taken_back
                [PropsChange (timed "Hi" 10 0 2); TimeoutFires]
                hello_three hello_cut eq_refl) as H.
  exact (conj (proj1 H) (proj1 (proj2 (proj2 H)))).
Defined.

(** ** The blinker follows the props *)

(** X5: whatever the sequence of events since mount, changes of
    [hideCursorWhenComplete] included, a mounted instance has its interval
    registered, with period 500, exactly when the caret is not suppressed;
    while it is suppressed [showCursor] is false and the caret is absent from
    the rendered output.  So turning [hideCursorWhenComplete] off again after
    completion restarts the blinker. *)
Theorem blinker_follows_props
    (p : TypingAnimationProps) (es : list Event) (w : World) :
  run (mount p) es = Some w -> mounted w = true ->
  cursorTimer w =
    (if hideCursorWhenComplete (locals w) && isComplete (state w)
     then None else Some 500%Z) /\
  (hideCursorWhenComplete (locals w) && isComplete (state w) = true ->
   showCursor (state w) = false /\
   v_caret (render (locals w) (state w)) = None /\
   step w IntervalFires = None) /\
  (hideCursorWhenComplete (locals w) && isComplete (state w) = false ->
   v_caret (render (locals w) (state w)) <> None /\
   step w IntervalFires = Some (setShowCursor negb w)).
Proof.
  intros Hrun Hm.
  pose proof (run_coherent es _ w (mount_coherent p) Hrun) as Hco.
  pose proof (co_cursorTimer _ Hco) as Hc. rewrite Hm in Hc. simpl in Hc.
  pose proof (co_hidden _ Hco) as Hh.
  unfold render; simpl.
  destruct (hideCursorWhenComplete (locals w)) eqn:Eh;
    destruct (isComplete (state w)) eqn:Eic; simpl in *;
    (split; [exact Hc|]); split; intros H; try discriminate H.
  - split; [exact (Hh eq_refl)|]. split; [reflexivity|].
    unfold step. now rewrite Hm, Hc.
  - split; [discriminate | exact (tick_step w _ Hm Hc)].
  - split; [discriminate | exact (tick_step w _ Hm Hc)].
  - split; [discriminate | exact (tick_step w _ Hm Hc)].
Qed.

Lemma blinker_follows_props_witness :
  cursorTimer ab_done = None /\ cursorTimer ab_shown_again = Some 500%Z.
Proof.
  split.
  - exact (proj1 (blinker_follows_props (hiding "AB" 100 0 1)
                    [TimeoutFires; IntervalFires; TimeoutFires; TimeoutFires]
                    ab_done eq_refl eq_refl)).
  - exact (proj1 (blinker_follows_props (hiding "AB" 100 0 1)
                    [TimeoutFires; IntervalFires; TimeoutFires; TimeoutFires;
                     PropsChange (timed "AB" 100 0 1)]
                    ab_shown_again eq_refl eq_refl)).
Defined.

(** ** Which callback is called, and when *)

(** X6: whatever the sequence of events since mount, a step either leaves
    the call log alone or is a wake-up that finds [currentIndex] at or past
    the end of the current [text] and appends the [onComplete] of the current
    props: a callback replaced by a re-render is never called afterwards. *)
Theorem calls_use_current_callback
    (p : TypingAnimationProps) (es : list Event) (w : World)
    (e : Event) (w' : World) :
  run (mount p) es = Some w -> step w e = Some w' ->
  completions w' = completions w \/
  (e = TimeoutFires /\
   String.length (text (locals w)) <= currentIndex (state w) /\
   exists cb,
     onComplete (locals w) = Some cb /\
     completions w' = (completions w ++ [cb])%list).
Proof.
  intros Hrun Hstep.
  pose proof (run_coherent es _ w (mount_coherent p) Hrun) as Hco.
  unfold step in Hstep.
  destruct (mounted w); simpl in Hstep; [|discriminate].
  destruct e.
  - destruct (timer w) as [t|] eqn:Et; [|discriminate].
    destruct (co_timer _ Hco t Et) as [_ ->]. injection Hstep as <-.
    set (wc := timeoutCallback (pendingFor (locals w) (state w)) (fired w)).
    destruct (commit_keeps (locals w) (state w) wc) as (_ & _ & _ & _ & _ & Hcs).
    rewrite Hcs. unfold wc, timeoutCallback, pendingFor; simpl.
    destruct (Nat.ltb (currentIndex (state w))
                (String.length (text (locals w)))) eqn:E; simpl.
    + left. reflexivity.
    + apply Nat.ltb_ge in E.
      destruct (onComplete (locals w)) as [cb|]; simpl.
      * right. split; [reflexivity|]. split; [exact E|].
        exists cb. split; reflexivity.
      * left. reflexivity.
  - destruct (cursorTimer w); [|discriminate]. injection Hstep as <-.
    left. unfold intervalCallback. now rewrite commit_same.
  - injection Hstep as <-. left.
    now destruct (commit_keeps (locals w) (state w)
                    (withLocals (destructure p0) w))
      as (_ & _ & _ & _ & _ & Hcs).
  - injection Hstep as <-. left. reflexivity.
Qed.

Lemma calls_use_current_callback_witness :
  step hi_new_callback TimeoutFires = Some hi_called_again /\
  (completions hi_called_again = completions hi_new_callback \/
   (TimeoutFires = TimeoutFires /\
    String.length (text (locals hi_new_callback))
      <= currentIndex (state hi_new_callback) /\
    exists cb,
      onComplete (locals hi_new_callback) = Some cb /\
      completions hi_called_again
        = (completions hi_new_callback ++ [cb])%list)).
Proof.
  split; [reflexivity|].
  exact (calls_use_current_callback (timed "Hi" 10 3 7)
           [TimeoutFires; IntervalFires; TimeoutFires; TimeoutFires;
            PropsChange (timed "Hi" 10 3 8)]
           hi_new_callback TimeoutFires hi_called_again eq_refl eq_refl).
Defined.

(** ** A text that grows *)

(** X7: when a mounted instance is re-rendered with a different [text] that
    is longer than [currentIndex], the reveal resumes where it stood: the
    next wake-up appends the new text's character at [currentIndex] to what
    is already displayed, calls nothing, leaves [isComplete] as it was (still
    true if the old text had completed) and schedules the next wake-up after
    the new [speed]. *)
Theorem longer_text_resumes (w : World) (p' : TypingAnimationProps) :
  mounted w = true ->
  p_text p' <> text (locals w) ->
  currentIndex (state w) < String.length (p_text p') ->
  exists w1 w2,
    step w (PropsChange p') = Some w1 /\
    step w1 TimeoutFires = Some w2 /\
    displayedText (state w2) =
      displayedText (state w) ++ charAt (p_text p') (currentIndex (state w)) /\
    currentIndex (state w2) = currentIndex (state w) + 1 /\
    isComplete (state w2) = isComplete (state w) /\
    completions w2 = completions w /\
    timer w2 =
      Some {| t_ms := speed (destructure p');
              t_currentIndex := currentIndex (state w) + 1;
              t_text := p_text p';
              t_onComplete := p_onComplete p' |}.
Proof.
  intros Hm Hneq Hlt.
  assert (Hd : revealDepsEqb (locals w) (state w) (destructure p') (state w)
               = false).
  { destruct (revealDepsEqb (locals w) (state w) (destructure p') (state w))
      eqn:E; [|reflexivity].
    apply revealDepsEqb_true in E as (_ & Ht & _).
    simpl in Ht. congruence. }
  destruct (props_change_reruns w p' Hm Hd)
    as (w1 & Hs1 & Hm1 & Hl1 & Ht1 & _ & Hd1 & Hi1 & Hic1 & Hc1).
  destruct (reveal_wake w1 _ Hm1 Ht1 Hlt)
    as (w2 & Hs2 & _ & _ & Hd2 & Hi2 & Hic2 & Hc2 & Ht2).
  exists w1, w2.
  split; [exact Hs1|]. split; [exact Hs2|].
  rewrite Hd2, Hi2, Hic2, Hc2, Ht2, Hd1, Hi1, Hic1, Hc1, Hl1.
  repeat split.
Qed.

Lemma longer_text_resumes_witness :
  exists w1 w2,
    step hi_timed_done (PropsChange (timed "Hello" 10 3 7)) = Some w1 /\
    step w1 TimeoutFires = Some w2 /\
    displayedText (state w2) = "Hil" /\
    isComplete (state w2) = true /\
    completions w2 = [7].
Proof.
  destruct (longer_text_resumes hi_timed_done (timed "Hello" 10 3 7) eq_refl)
    as (w1 & w2 & H1 & H2 & H3 & _ & H4 & H5 & _).
  - discriminate.
  - simpl. lia.
  - exists w1, w2. exact (conj H1 (conj H2 (conj H3 (conj H4 H5)))).
Defined.

(** ** Props the reveal does not depend on *)

(** X8: a re-render that changes none of [text], [speed], [delay] and the
    [onComplete] reference (only [className] or [hideCursorWhenComplete])
    leaves the pending timeout, the schedule, the revealed text, the index,
    the completion flag and the call log as they were, and the rendered
    container carries the new class at once. *)
Theorem other_props_leave_reveal_alone (w : World) (p' : TypingAnimationProps) :
  mounted w = true ->
  revealPropsEqb (locals w) (destructure p') = true ->
  exists w1,
    step w (PropsChange p') = Some w1 /\
    timer w1 = timer w /\ scheduled w1 = scheduled w /\
    displayedText (state w1) = displayedText (state w) /\
    currentIndex (state w1) = currentIndex (state w) /\
    isComplete (state w1) = isComplete (state w) /\
    completions w1 = completions w /\
    v_className (render (locals w1) (state w1)) = orDefault "" (p_className p') /\
    v_text (render (locals w1) (state w1)) = displayedText (state w).
Proof.
  intros Hm Hr. unfold step. rewrite Hm; simpl.
  eexists; split; [reflexivity|].
  set (wl := withLocals (destructure p') w).
  destruct (commit_keeps (locals w) (state w) wl)
    as (_ & Hl' & Hd' & Hi' & Hic' & Hcs').
  destruct (commit_reveal (locals w) (state w) wl) as (Ht' & Hs').
  rewrite revealDepsEqb_split in Ht', Hs'. simpl in Ht', Hs', Hl', Hd', Hi', Hic', Hcs'.
  rewrite Nat.eqb_refl, Hr in Ht', Hs'. simpl in Ht', Hs'.
  unfold render; simpl. rewrite Hl', Hd'. simpl.
  repeat split; assumption.
Qed.

Lemma other_props_leave_reveal_alone_witness :
  exists w1,
    step ab_one (PropsChange (timed "AB" 100 0 1)) = Some w1 /\
    timer w1 = timer ab_one /\
    displayedText (state w1) = displayedText (state ab_one).
Proof.
  destruct (other_props_leave_reveal_alone ab_one (timed "AB" 100 0 1)
              eq_refl eq_refl)
    as (w1 & H1 & H2 & _ & H3 & _).
  exists w1. exact (conj H1 (conj H2 H3)).
Defined.

(** ** The end of a run *)

(** X9: with the configuration fixed, once [isComplete] is true the
    component displays the whole [text], and letting the timeout fire
    [text.length + 1] times from mount gets there. *)
Theorem completed_run_shows_whole_text (p : TypingAnimationProps) :
  (forall es w,
     fixedTrace es = true -> run (mount p) es = Some w ->
     isComplete (state w) = true ->
     displayedText (state w) = p_text p /\
     v_text (render (locals w) (state w)) = p_text p) /\
  (exists w,
     run (mount p) (repeat TimeoutFires (String.length (p_text p) + 1)) = Some w /\
     isComplete (state w) = true /\
     v_text (render (locals w) (state w)) = p_text p).
Proof.
  assert (Hshow : forall w, Inv (destructure p) w ->
            isComplete (state w) = true ->
            displayedText (state w) = p_text p).
  { intros w Hinv Hic.
    rewrite (inv_prefix _ _ Hinv), (inv_complete _ _ Hinv Hic).
    apply substring_all. }
  split.
  - intros es w Hfix Hrun Hic.
    pose proof (Hshow w (reachable_inv p es w Hfix Hrun) Hic) as H.
    split; exact H.
  - destruct (run_to_completion (destructure p) (String.length (p_text p) + 1)
                (mount p) (mount_inv p) (mount_mounted p))
      as (w & Hr & _ & Hic & Hinv).
    { rewrite mount_progress. reflexivity. }
    exists w. split; [exact Hr|]. split; [exact Hic|].
    exact (Hshow w Hinv Hic).
Qed.

(** ** Ticks *)

(** X10: in a mounted world with the interval running, two ticks in a row
    bring back exactly the world they started from: a tick touches nothing
    but [showCursor]. *)
Theorem two_ticks_restore (w : World) (ms : Z) :
  mounted w = true -> cursorTimer w = Some ms ->
  run w [IntervalFires; IntervalFires] = Some w.
Proof.
  intros Hm Hc. simpl.
  rewrite (tick_step w ms Hm Hc).
  rewrite (tick_step (setShowCursor negb w) ms Hm Hc).
  f_equal. destruct w as [m l [dt idx sc ic] tm ct sch cs].
  unfold setShowCursor; simpl. now rewrite negb_involutive.
Qed.

Lemma two_ticks_restore_witness :
  run hi_one [IntervalFires; IntervalFires] = Some hi_one.
Proof.
  exact (two_ticks_restore hi_one 500%Z eq_refl eq_refl).
Defined.

Lemma wake_step (w : World) (t : Pending) :
  mounted w = true -> timer w = Some t ->
  step w TimeoutFires =
  Some (commit (locals w) (state w) (timeoutCallback t (fired w))).
Proof.
  intros Hm Ht. unfold step. now rewrite Hm, Ht.
Qed.

Lemma wake_after_tick (w : World) (t : Pending) :
  t_currentIndex t < String.length (t_text t)
  \/ hideCursorWhenComplete (locals w) = false ->
  commit (locals w) (state (setShowCursor negb w))
    (timeoutCallback t (fired (setShowCursor negb w))) =
  setShowCursor negb
    (commit (locals w) (state w) (timeoutCallback t (fired w))).
Proof.
  intros Hor.
  destruct w as [m l [dt idx sc ic] tm ct sch cs].
  unfold timeoutCallback.
  destruct (Nat.ltb (t_currentIndex t) (String.length (t_text t))) eqn:E.
  - unfold commit; simpl.
    rewrite !revealDepsEqb_same, !cursorDepsEqb_same; simpl.
    replace (Nat.eqb idx (idx + 1)) with false
      by (symmetry; apply Nat.eqb_neq; lia).
    rewrite eqb_reflx. reflexivity.
  - destruct Hor as [Hlt | Hh].
    { apply Nat.ltb_lt in Hlt. congruence. }
    simpl in Hh. unfold commit, cursorEffect.
    destruct (t_onComplete t) as [cb|]; destruct ic; simpl;
      rewrite !revealDepsEqb_same, !cursorDepsEqb_same;
      repeat (simpl; rewrite ?Nat.eqb_refl, ?Hh); reflexivity.
Qed.

(** X11: a tick of the interval and a wake-up of the reveal can happen in
    either order with the same result, as long as the wake-up does not stop
    the blinker (it reveals a character, or [hideCursorWhenComplete] is
    false). *)
Theorem tick_and_wake_commute (w : World) (t : Pending) (ms : Z) :
  mounted w = true -> timer w = Some t -> cursorTimer w = Some ms ->
  t_currentIndex t < String.length (t_text t)
  \/ hideCursorWhenComplete (locals w) = false ->
  run w [IntervalFires; TimeoutFires] = run w [TimeoutFires; IntervalFires] /\
  run w [IntervalFires; TimeoutFires] <> None.
Proof.
  intros Hm Ht Hc Hor.
  set (w2 := commit (locals w) (state w) (timeoutCallback t (fired w))).
  assert (Hm2 : mounted w2 = true).
  { destruct (commit_keeps (locals w) (state w) (timeoutCallback t (fired w)))
      as (Hm' & _). unfold w2. rewrite Hm'. unfold timeoutCallback.
    destruct (Nat.ltb (t_currentIndex t) (String.length (t_text t)));
      [|destruct (t_onComplete t)]; exact Hm. }
  assert (Hc2 : exists ms', cursorTimer w2 = Some ms').
  { destruct (commit_cursor (locals w) (state w) (timeoutCallback t (fired w)))
      as (Hc' & _). unfold w2. rewrite Hc'. unfold timeoutCallback.
    destruct (Nat.ltb (t_currentIndex t) (String.length (t_text t))) eqn:E.
    - simpl. rewrite cursorDepsEqb_same, eqb_reflx, Hc. eauto.
    - destruct Hor as [Hlt | Hh].
      { apply Nat.ltb_lt in Hlt. congruence. }
      destruct (t_onComplete t); simpl; rewrite Hh, Hc; simpl;
        match goal with
        | |- context [if ?b then _ else _] => destruct b
        end; eauto. }
  destruct Hc2 as [ms' Hc2].
  simpl run.
  rewrite (tick_step w ms Hm Hc).
  rewrite (wake_step (setShowCursor negb w) t Hm Ht).
  rewrite (wake_step w t Hm Ht). fold w2.
  rewrite (tick_step w2 ms' Hm2 Hc2).
  change (locals (setShowCursor negb w)) with (locals w).
  rewrite (wake_after_tick w t Hor). fold w2.
  split; [reflexivity | discriminate].
Qed.

Lemma tick_and_wake_commute_witness :
  run hi_one [IntervalFires; TimeoutFires] = run hi_one [TimeoutFires; IntervalFires].
Proof.
  exact (proj1 (tick_and_wake_commute hi_one
                  {| t_ms := 100; t_currentIndex := 1; t_text := "Hi";
                     t_onComplete := None |} 500%Z
                  eq_refl eq_refl eq_refl (or_introl (le_n 2)))).
Defined.

(** ** Omitted props *)

(** X12: with the configuration fixed, an omitted [delay] makes the first
    wake-up wait 0, an omitted [speed] makes every later one wait 100, an
    omitted [hideCursorWhenComplete] keeps the caret in the output in every
    state, completion included, and an omitted [className] renders the empty
    class. *)
Theorem omitted_props_take_defaults
    (p : TypingAnimationProps) (es : list Event) (w : World) :
  fixedTrace es = true -> run (mount p) es = Some w ->
  (p_delay p = None -> hd_error (scheduled w) = Some 0%Z) /\
  (p_speed p = None ->
   tl (scheduled w) = repeat 100%Z (currentIndex (state w))) /\
  (p_hideCursorWhenComplete p = None ->
   v_caret (render (locals w) (state w)) <> None) /\
  (p_className p = None -> v_className (render (locals w) (state w)) = "").
Proof.
  intros Hfix Hrun.
  pose proof (reachable_inv p es w Hfix Hrun) as Hinv.
  pose proof (inv_scheduled _ _ Hinv) as Hs.
  pose proof (inv_locals _ _ Hinv) as Hl.
  unfold render. rewrite Hl, Hs. simpl.
  split; [|split; [|split]]; intros H; rewrite H; simpl;
    try reflexivity; discriminate.
Qed.

Lemma omitted_props_take_defaults_witness :
  hd_error (scheduled hi_done) = Some 0%Z /\
  tl (scheduled hi_done) = [100; 100]%Z /\
  v_caret (render (locals hi_done) (state hi_done)) <> None.
Proof.
  pose proof (omitted_props_take_defaults (plain "Hi")
                [TimeoutFires; TimeoutFires; TimeoutFires] hi_done
                eq_refl eq_refl) as H.
  exact (conj (proj1 H eq_refl)
           (conj (proj1 (proj2 H) eq_refl)
              (proj1 (proj2 (proj2 H)) eq_refl))).
Defined.

(** ** Without a callback *)

(** X13: when no [onComplete] is given and the reveal props stay fixed, no
    call is ever made, and the reveal completes all the same: the terminal
    wake-up still sets [isComplete]. *)
Theorem no_callback_no_call (p : TypingAnimationProps) :
  p_onComplete p = None ->
  (forall es w,
     revealFixed (destructure p) es = true -> run (mount p) es = Some w ->
     completions w = []) /\
  (exists w,
     run (mount p) (repeat TimeoutFires (String.length (p_text p) + 1)) = Some w /\
     isComplete (state w) = true /\ completions w = []).
Proof.
  intros Hnone.
  assert (Hcalls : forall w, RevealInv (destructure p) w -> completions w = []).
  { intros w Hinv. rewrite (rinv_calls _ _ Hinv). simpl. rewrite Hnone.
    now destruct (isComplete (state w)). }
  split.
  - intros es w Hfix Hrun.
    destruct (reveal_run _ es _ _ (inv_reveal _ _ (mount_inv p)) Hfix Hrun)
      as (Hinv & _).
    exact (Hcalls w Hinv).
  - destruct (run_to_completion (destructure p) (String.length (p_text p) + 1)
                (mount p) (mount_inv p) (mount_mounted p))
      as (w & Hr & _ & Hic & Hinv).
    { rewrite mount_progress. reflexivity. }
    exists w. split; [exact Hr|]. split; [exact Hic|].
    exact (Hcalls w (inv_reveal _ _ Hinv)).
Qed.

Lemma no_callback_no_call_witness :
  run (mount (plain "Hi")) [TimeoutFires; TimeoutFires; TimeoutFires]
    = Some hi_done /\
  completions hi_done = [].
Proof.
  split; [reflexivity|].
  exact (proj1 (no_callback_no_call (plain "Hi") eq_refl)
           [TimeoutFires; TimeoutFires; TimeoutFires] hi_done
           eq_refl eq_refl).
Defined.

(** ** How long a reveal waits *)

Lemma totalWait_repeat (d : Z) (n : nat) :
  totalWait (repeat d n) = (Z.of_nat n * d)%Z.
Proof.
  induction n as [|n IH]; [reflexivity|].
  change (totalWait (repeat d (S n))) with (d + totalWait (repeat d n))%Z.
  rewrite IH. lia.
Qed.

(** X14: with the configuration fixed, the waits handed to the timer by the
    time [isComplete] is set add up to [delay + text.length * speed]; before
    that, with [k] characters shown, they add up to [delay + k * speed]. *)
Theorem waits_add_up
    (p : TypingAnimationProps) (es : list Event) (w : World) :
  fixedTrace es = true -> run (mount p) es = Some w ->
  let l := destructure p in
  totalWait (scheduled w) =
    (delay l + Z.of_nat (currentIndex (state w)) * speed l)%Z /\
  (isComplete (state w) = true ->
   totalWait (scheduled w) =
     (delay l + Z.of_nat (String.length (text l)) * speed l)%Z).
Proof.
  intros Hfix Hrun l.
  pose proof (reachable_inv p es w Hfix Hrun) as Hinv. fold l in Hinv.
  assert (H : totalWait (scheduled w) =
              (delay l + Z.of_nat (currentIndex (state w)) * speed l)%Z).
  { rewrite (inv_scheduled _ _ Hinv).
    change (totalWait (delay l :: repeat (speed l) (currentIndex (state w))))
      with (delay l + totalWait (repeat (speed l) (currentIndex (state w))))%Z.
    now rewrite totalWait_repeat. }
  split; [exact H|].
  intros Hic. rewrite H. now rewrite (inv_complete _ _ Hinv Hic).
Qed.

Lemma waits_add_up_witness :
  totalWait (scheduled hi_timed_done) = 23%Z.
Proof.
  exact (proj1 (waits_add_up (timed "Hi" 10 3 7)
                  [TimeoutFires; IntervalFires; TimeoutFires; TimeoutFires]
                  hi_timed_done eq_refl eq_refl)).
Defined.
